(** * Transcriber service: fetch, transcribe, persist, notify

    A shallow embedding of [app/services.py] (class [TranscriberService]:
    [fetch_and_transcribe_files], [update_status]) and of [app/routes.py]
    ([async_process], [process_in_background], [fetch_and_transcribe]),
    followed by the properties of the pipeline.

    The Python code talks to four outside services (the Supabase tables
    [audio_files] and [spot_features], the S3 bucket, the ASR provider and the
    SQS queue).  Their behaviour is not part of the program, so every call to
    them goes through a handler of an environment record [Env]: a handler
    receives the arguments the code passes and the present state of the
    outside world, and answers with the next state of the world and either a
    value or a raised exception.  All theorems quantify over the environment.
    What the program itself owns (its log, its temporary files, the
    calls it made, the tasks it scheduled) is kept in the [State] record and
    threaded through a state-and-exception monad. *)

From Stdlib Require Import List Bool Arith NArith ZArith Lia String Ascii.
From Stdlib Require Import Permutation.
From Equations Require Import Equations.
Import ListNotations.

Set Implicit Arguments.

(** ** Python strings *)

(** A Python [str] is a sequence of Unicode code points. *)
Definition str := list N.

(** ASCII literals. *)
Definition lit (s : string) : str :=
  map N_of_ascii (list_ascii_of_string s).

(** [str.isspace] on one code point, the table of CPython's
    [_PyUnicode_IsWhitespace]. *)
Definition py_isspace (c : N) : bool :=
  (((9 <=? c) && (c <=? 13)) || ((28 <=? c) && (c <=? 32))
   || (c =? 133) || (c =? 160) || (c =? 5760)
   || ((8192 <=? c) && (c <=? 8202))
   || (c =? 8232) || (c =? 8233) || (c =? 8239) || (c =? 8287)
   || (c =? 12288))%N.

Fixpoint lstrip (s : str) : str :=
  match s with
  | [] => []
  | c :: t => if py_isspace c then lstrip t else s
  end.

Definition rstrip (s : str) : str := rev (lstrip (rev s)).

(** [s.strip()] *)
Definition strip (s : str) : str := rstrip (lstrip s).

(** Truth value of a [str]: the empty string is false. *)
Definition str_truthy (s : str) : bool :=
  match s with [] => false | _ => true end.

(** Truth value of an [Optional[str]] and of an optional list. *)
Definition opt_truthy (o : option str) : bool :=
  match o with Some s => str_truthy s | None => false end.

Definition list_truthy {A} (l : list A) : bool :=
  match l with [] => false | _ => true end.

Definition optlist_truthy {A} (o : option (list A)) : bool :=
  match o with Some l => list_truthy l | None => false end.

(** [os.path.basename]: what follows the last slash. *)
Fixpoint after_last_slash (acc s : str) : str :=
  match s with
  | [] => acc
  | c :: t => if (c =? 47)%N then after_last_slash t t
              else after_last_slash acc t
  end.

Definition basename (p : str) : str := after_last_slash p p.

(** The literal ["発話なし"] (U+767A U+8A71 U+306A U+3057) stored when no
    speech was transcribed. *)
Definition NO_SPEECH : str := [30330; 35441; 12394; 12375]%N.

(** ** Data of the service *)

(** A row of the [audio_files] table as the queries select it. *)
Record AudioFile := {
  af_file_path : str;
  af_device_id : str;
  af_recorded_at : str;
  af_local_date : option str;
  af_time_block : option str
}.

(** An element of [files_to_process]. *)
Record WorkItem := {
  file_path : str;
  device_id : str;
  recorded_at : str
}.

(** What [transcribe_audio] returns; [no_speech_detected] may be absent. *)
Record AsrResult := {
  transcription : str;
  no_speech_detected : option bool
}.

(** The dictionary [data] handed to [upsert]. *)
Record Payload := {
  p_device_id : str;
  p_recorded_at : str;
  p_local_date : option str;
  p_local_time : option str;
  vibe_transcriber_result : str
}.

(** A row of [spot_features] as a response carries it; a column that was
    never written is [None]. *)
Record Row := {
  r_device_id : str;
  r_recorded_at : str;
  r_local_date : option str;
  r_local_time : option str;
  r_vibe_transcriber_result : option str;
  r_vibe_status : option str
}.

(** [FetchAndTranscribeRequest] (declared in [app/models.py]). *)
Record Request := {
  req_file_paths : option (list str);
  req_device_id : option str;
  req_local_date : option str;
  req_time_blocks : option (list str);
  req_model : str
}.

(** [AsyncProcessRequest] *)
Record AsyncProcessRequest := {
  a_file_path : str;
  a_device_id : str;
  a_recorded_at : str
}.

(** Exceptions.  [ClientError] is botocore's; [HTTPException] is FastAPI's
    and is only raised by the service itself; [Exception] stands for every
    other subclass of Python's [Exception].  Where the code formats [str(e)]
    into a message the exception itself is kept. *)
Inductive Exn :=
| ClientError (msg : str)
| Exception (msg : str)
| HTTPException (status_code : nat) (detail : Detail)
with Detail :=
| DbQueryError (cause : Exn)
| MissingSelector
| UnsupportedModel (m : str)
| Unexpected (cause : Exn).

Inductive result (A : Type) :=
| Ok (a : A)
| Raise (e : Exn).
Arguments Ok {A} a.
Arguments Raise {A} e.

(** The JSON body sent to the feature-completed queue. *)
Record Event := {
  ev_device_id : str;
  ev_recorded_at : str;
  ev_feature_type : str;
  ev_status : str;
  ev_processed_files : option (list str);
  ev_error : option Exn
}.

(** A task handed to [BackgroundTasks.add_task]: the arguments of
    [process_in_background]. *)
Record Task := {
  t_file_path : str;
  t_device_id : str;
  t_recorded_at : str
}.

(** The logger's records, one constructor per call site. *)
Inductive Level := INFO | WARNING | ERROR.

Inductive LogMsg :=
| NewInterface (d ld : str) (tb : option (list str))
| CatalogCount (n : nat)
| CatalogQueryError (e : Exn)
| OldInterface (n : nat)
| Targets (n : nat)
| CatalogMissing (path : str)
| CatalogLookupError (path : str) (e : Exn)
| QuotaSuspected (hh mm : Z)
| QuotaRetryAfterNine
| RetrievedLocalDate (d : option str)
| RetrievedLocalTime (t : option str)
| NoAudioFilesRecord (d r : str)
| LocalLookupError (e : Exn)
| UpsertRetry (retry_count : nat)
| UpsertResponse (data : list Row)
| UpsertNoData (attempt : nat)
| UpsertRequestPayload (p : Payload)
| ExistingRecordFound
| UpsertError (attempt : nat) (e : Exn)
| Transcribed (path : str) (chars : nat)
| TranscribedNoSpeech (path : str)
| S3Error (path : str) (e : Exn)
| ItemError (path : str) (e : Exn)
| StatusUpdated (d r field value : str)
| StatusRecordCreated (d r field value : str)
| StatusUpdateFailed (e : Exn)
| AsyncStarting (d r : str)
| AsyncStatusFailed (e : Exn)
| BackgroundStarted (d : str)
| BackgroundCompleted (d : str)
| BackgroundFailed (d : str) (e : Exn)
| EndpointError (e : Exn).

(** How a call to [spot_features] was answered: with rows in the response's
    [data], with an empty [data], or with an exception. *)
Inductive Answer := WithData | WithoutData | Raised.

(** The calls made to the outside services, in the order they were made;
    the upsert and the select of [spot_features] with their answer. *)
Inductive Call :=
| CQueryAudioFiles (d ld : str) (tb : option (list str))
| CLookupAudioFile (path : str)
| CLookupLocal (d r : str)
| CCreateTemp
| CDownload (bucket key : str) (tmp : N)
| CTranscribe (tmp : N) (filename : str) (detailed high_accuracy : bool)
| CSleep (seconds : nat)
| CUpsert (p : Payload) (a : Answer)
| CSelect (d r : str) (a : Answer)
| CUpdate (d r field value : str)
| CInsert (d r field value : str)
| CSend (ev : Event).

(** ** Responses *)

Record Summary := {
  total_files : nat;
  already_completed : option nat;
  pending_processed : nat;
  errors : nat
}.

(** The three texts of the [message] field. *)
Inductive Message :=
| NothingToProcessOrDone
| NothingToProcess
| ProcessedWith (total processed : nat) (provider : str).

(** The dictionary returned by [fetch_and_transcribe_files].  A key that a
    variant of the response does not carry, or carries as [None], is [None]
    here.  [execution_time_seconds] is a rounded float and is left out. *)
Record Response := {
  status : str;
  summary : Summary;
  resp_device_id : option str;
  resp_local_date : option str;
  time_blocks_requested : option (list str);
  processed_time_blocks : option (list str);
  processed_files : option (list str);
  error_files : option (list str);
  message : Message;
  asr_provider : option str;
  asr_model : option str
}.

(** The body returned by [async_process]. *)
Record Accepted := {
  acc_status : str;
  acc_message : str;
  acc_device_id : str;
  acc_recorded_at : str
}.

(** What the HTTP client sees: FastAPI answers a handler's return value with
    the route's status code, an [HTTPException] with its own status code, and
    any other exception with 500. *)
Inductive Http (A : Type) :=
| HttpReturn (code : nat) (body : A)
| HttpFailure (code : nat).
Arguments HttpReturn {A} code body.
Arguments HttpFailure {A} code.

Definition http_code {A} (h : Http A) : nat :=
  match h with HttpReturn c _ => c | HttpFailure c => c end.

(** ** The program state and the outside world *)

Section Service.

Variable W : Type.

Record State := mkState {
  world : W;                      (* the state of the outside services *)
  trace : list Call;              (* calls made so far, oldest first *)
  log : list (Level * LogMsg);    (* logger output, oldest first *)
  tmp_files : list N;             (* temporary files that exist *)
  queue : list Event;             (* messages the queue accepted *)
  tasks : list Task               (* background tasks added *)
}.

(** The outside services.  Every handler may change the world and may
    raise. *)
Record Env := {
  (* audio_files: select ... eq device_id, eq local_date [, in_ time_block] *)
  query_audio_files :
    str -> str -> option (list str) -> W -> W * result (list AudioFile);
  (* audio_files: select device_id, recorded_at eq file_path, single() *)
  lookup_audio_file : str -> W -> W * result (option (str * str));
  (* audio_files: select local_date, local_time eq device_id, eq recorded_at *)
  lookup_local : str -> str -> W -> W * result (list (option str * option str));
  (* tempfile.NamedTemporaryFile(suffix=".wav", delete=False) *)
  create_temp : W -> W * result unit;
  (* s3_client.download_file(bucket, key, filename) *)
  download_file : str -> str -> N -> W -> W * result unit;
  (* asr_provider.transcribe_audio(handle, filename, detailed, high_accuracy) *)
  transcribe_audio : N -> str -> bool -> bool -> W -> W * result AsrResult;
  (* time.sleep *)
  sleep : nat -> W -> W;
  (* spot_features: upsert(data); the response's data *)
  upsert : Payload -> W -> W * result (list Row);
  (* spot_features: select * eq device_id, eq recorded_at *)
  select_spot : str -> str -> W -> W * result (list Row);
  (* spot_features: update {field: value} eq device_id, eq recorded_at *)
  update_spot : str -> str -> str -> str -> W -> W * result (list Row);
  (* spot_features: insert {device_id, recorded_at, field: value, timestamps} *)
  insert_spot : str -> str -> str -> str -> W -> W * result unit;
  (* sqs.send_message *)
  send_message : Event -> W -> W * result unit;
  (* datetime.now(pytz.UTC), in seconds since the epoch *)
  utc_now : W -> Z;
  s3_bucket_name : str;
  provider_name : str;
  model_name : str
}.

Variable env : Env.

(** ** State and exceptions *)

Definition M (A : Type) : Type := State -> State * result A.

Definition ret {A} (a : A) : M A := fun s => (s, Ok a).

Definition bind {A B} (c : M A) (k : A -> M B) : M B :=
  fun s =>
    match c s with
    | (s', Ok a) => k a s'
    | (s', Raise e) => (s', Raise e)
    end.

Definition raise {A} (e : Exn) : M A := fun s => (s, Raise e).

(** [try: c  except Exception as e: h e] *)
Definition try_except {A} (c : M A) (h : Exn -> M A) : M A :=
  fun s =>
    match c s with
    | (s', Ok a) => (s', Ok a)
    | (s', Raise e) => h e s'
    end.

(** [try: c  finally: f] *)
Definition try_finally {A} (c : M A) (f : M unit) : M A :=
  fun s =>
    match c s with
    | (s', r) =>
        match f s' with
        | (s'', Ok _) => (s'', r)
        | (s'', Raise e) => (s'', Raise e)
        end
    end.

Definition set_world (w : W) (s : State) : State :=
  mkState w (trace s) (log s) (tmp_files s) (queue s) (tasks s).

Definition add_call (c : Call) (s : State) : State :=
  mkState (world s) (trace s ++ [c]) (log s) (tmp_files s)
          (queue s) (tasks s).

Definition add_log (l : Level) (m : LogMsg) (s : State) : State :=
  mkState (world s) (trace s) (log s ++ [(l, m)]) (tmp_files s)
          (queue s) (tasks s).

Definition set_tmp (fs : list N) (s : State) : State :=
  mkState (world s) (trace s) (log s) fs (queue s) (tasks s).

Definition add_event (ev : Event) (s : State) : State :=
  mkState (world s) (trace s) (log s) (tmp_files s)
          (queue s ++ [ev]) (tasks s).

Definition add_task (t : Task) : M unit :=
  fun s =>
    (mkState (world s) (trace s) (log s) (tmp_files s)
             (queue s) (tasks s ++ [t]), Ok tt).

Definition logger (l : Level) (m : LogMsg) : M unit :=
  fun s => (add_log l m s, Ok tt).

(** A call to an outside service: recorded, then answered by its handler. *)
Definition call {A} (c : Call) (h : W -> W * result A) : M A :=
  fun s =>
    match h (world s) with
    | (w', r) => (set_world w' (add_call c s), r)
    end.

Definition answer_of (r : result (list Row)) : Answer :=
  match r with
  | Ok [] => WithoutData
  | Ok (_ :: _) => WithData
  | Raise _ => Raised
  end.

(** A call to [spot_features] whose answer is recorded with it. *)
Definition call_rows (c : Answer -> Call) (h : W -> W * result (list Row))
  : M (list Row) :=
  fun s =>
    match h (world s) with
    | (w', r) => (set_world w' (add_call (c (answer_of r)) s), r)
    end.

End Service.

Arguments ret {W A} a.
Arguments raise {W A} e.

Declare Scope svc_scope.
Delimit Scope svc_scope with svc.
Notation "x <- c ;; k" := (bind c (fun x => k))
  (at level 61, c at next level, right associativity) : svc_scope.
Notation "c ;; k" := (bind c (fun _ => k))
  (at level 61, right associativity) : svc_scope.
Local Open Scope svc_scope.

Arguments logger {W} l m.
Arguments add_task {W} t.
Arguments call {W A} c h.
Arguments call_rows {W} c h.

(** ** [TranscriberService] *)

Section Transcriber.

Variable W : Type.
Variable env : Env W.

Local Abbreviation M := (M W).
Local Abbreviation State := (State W).

(** *** Classification of the ASR result *)

(** Hour and minute of the day in Asia/Tokyo (UTC+9, no daylight saving).
    This is the zone's offset at every instant since 1951-09-08 15:00 UTC;
    the zone's table has daylight saving in the summers of 1948 to 1951 and
    local mean time before 1888, which a clock set that far back would
    meet. *)
Definition jst_hour (now : Z) : Z := ((now + 9 * 3600) / 3600) mod 24.
Definition jst_minute (now : Z) : Z := ((now + 9 * 3600) / 60) mod 60.

(** [transcription_result.get("no_speech_detected", False)] *)
Definition no_speech_flag (res : AsrResult) : bool :=
  match no_speech_detected res with Some b => b | None => false end.

(** The quota check; its result is the local [is_quota_exceeded]. *)
Definition quota_check (res : AsrResult) (transcription : str) : M bool :=
  fun s =>
    if negb (str_truthy transcription) && negb (no_speech_flag res) then
      let now := utc_now env (world s) in
      if (jst_hour now <? 9)%Z then
        (logger WARNING (QuotaSuspected (jst_hour now) (jst_minute now)) ;;
         logger WARNING QuotaRetryAfterNine ;;
         ret true) s
      else (s, Ok false)
    else (s, Ok false).

(** [transcription if transcription else "発話なし"] *)
Definition final_transcription (transcription : str) : str :=
  if str_truthy transcription then transcription else NO_SPEECH.

(** *** [local_date] and [local_time] of the recording *)

Definition fetch_local (device_id recorded_at : str)
  : M (option str * option str) :=
  try_except
    (rows <- call (CLookupLocal device_id recorded_at)
                  (lookup_local env device_id recorded_at) ;;
     match rows with
     | row :: _ =>
         logger INFO (RetrievedLocalDate (fst row)) ;;
         logger INFO (RetrievedLocalTime (snd row)) ;;
         ret row
     | [] =>
         logger WARNING (NoAudioFilesRecord device_id recorded_at) ;;
         ret (None, None)
     end)
    (fun e => logger ERROR (LocalLookupError e) ;; ret (None, None)).

(** *** The upsert with retries *)

Definition max_retries : nat := 3.

(** The [try] block of one turn of the [while] loop.  The locals
    [retry_count] and [upsert_success] are assigned inside the block, so the
    value of [retry_count] at the moment the block is left is returned on
    both exits: with the new [upsert_success], or with the exception. *)
Definition upsert_try (data : Payload) (retry_count : nat)
  : State -> State * (nat * result bool) :=
  fun s =>
    let s0 :=
      if 0 <? retry_count then
        let s' := add_log INFO (UpsertRetry retry_count) s in
        set_world (sleep env (1 * retry_count) (world s'))
                  (add_call (CSleep (1 * retry_count)) s')
      else s in
    match call_rows (CUpsert data) (upsert env data) s0 with
    | (s1, Raise e) => (s1, (retry_count, Raise e))
    | (s1, Ok response_data) =>
        let s2 := add_log INFO (UpsertResponse response_data) s1 in
        if negb (list_truthy response_data) then
          let s3 := add_log WARNING (UpsertRequestPayload data)
                      (add_log WARNING (UpsertNoData (retry_count + 1)) s2) in
          match call_rows (CSelect (p_device_id data) (p_recorded_at data))
                          (select_spot env (p_device_id data)
                                       (p_recorded_at data))
                          s3 with
          | (s4, Raise e) => (s4, (retry_count, Raise e))
          | (s4, Ok check_data) =>
              if list_truthy check_data then
                (add_log INFO ExistingRecordFound s4, (retry_count, Ok true))
              else
                let retry_count' := retry_count + 1 in
                if max_retries <=? retry_count' then
                  (s4, (retry_count',
                        Raise (Exception
                                 (lit "Supabase upsert failed after 3 attempts"))))
                else (s4, (retry_count', Ok false))
          end
        else (s2, (retry_count, Ok true))
    end.

(** One turn of the loop: the [try] block and its [except] clause.  Returns
    the locals for the next test of the loop condition, or raises. *)
Definition upsert_turn (data : Payload) (retry_count : nat)
  : M (nat * bool) :=
  fun s =>
    match upsert_try data retry_count s with
    | (s1, (rc, Ok upsert_success)) => (s1, Ok (rc, upsert_success))
    | (s1, (rc, Raise e)) =>
        let s2 := add_log ERROR (UpsertError (rc + 1) e) s1 in
        let rc' := rc + 1 in
        if max_retries <=? rc' then (s2, Raise e)
        else (s2, Ok (rc', false))
    end.

Definition inspect {A} (a : A) : {b : A | a = b} := exist _ a eq_refl.

(** [while retry_count < max_retries and not upsert_success: ...] *)
Equations? upsert_loop (data : Payload) (retry_count : nat)
  (upsert_success : bool) (s : State) : State * result unit
  by wf (if upsert_success then 0 else S (max_retries - retry_count)) lt :=
  upsert_loop data retry_count upsert_success s
    with inspect ((retry_count <? max_retries) && negb upsert_success) := {
    | exist _ false _ => (s, Ok tt)
    | exist _ true Hc with inspect (upsert_turn data retry_count s) := {
      | exist _ (s', Raise e) _ => (s', Raise e)
      | exist _ (s', Ok (rc', ok')) Ht => upsert_loop data rc' ok' s' } }.
Proof.
  apply andb_prop in Hc. destruct Hc as [Hlt Hok].
  apply Nat.ltb_lt in Hlt. apply negb_true_iff in Hok. subst upsert_success.
  clear upsert_loop.
  assert (Hprog : ok' = true \/ retry_count < rc').
  { destruct ok'; [now left | right].
    unfold upsert_turn in Ht.
    destruct (upsert_try data retry_count s) as [s1 [rc r]] eqn:Htry.
    assert (Hrc : retry_count <= rc /\
                  (r = Ok false -> retry_count < rc)).
    { unfold upsert_try, call_rows in Htry.
      repeat match type of Htry with
             | context [match ?x with _ => _ end] => destruct x eqn:?
             end;
      inversion Htry; subst; split; try lia; try discriminate; intros; lia. }
    destruct Hrc as [Hle Hfalse].
    destruct r as [b|e].
    - inversion Ht; subst. apply Hfalse. reflexivity.
    - destruct (max_retries <=? rc + 1); inversion Ht; subst. lia. }
  unfold max_retries in Hlt.
  destruct Hprog as [-> | Hprog]; [lia|].
  destruct ok'; [lia|].
  destruct retry_count as [|[|[|?]]], rc' as [|[|[|?]]]; lia.
Qed.

Definition upsert_with_retry (data : Payload) : M unit :=
  upsert_loop data 0 false.

(** *** One work item *)

(** A name that no existing temporary file has. *)
Definition unused_name (fs : list N) : N := N.succ (fold_right N.max 0%N fs).

(** [tempfile.NamedTemporaryFile(suffix=".wav", delete=False)]: when the
    file system grants it, a file with an unused name exists afterwards. *)
Definition NamedTemporaryFile : M N :=
  call CCreateTemp (create_temp env) ;;
  (fun s =>
     let tmp := unused_name (tmp_files s) in
     (set_tmp (tmp :: tmp_files s) s, Ok tmp)).

(** [if os.path.exists(p): os.unlink(p)] *)
Definition unlink_if_exists (tmp : N) : M unit :=
  fun s =>
    if existsb (N.eqb tmp) (tmp_files s) then
      (set_tmp (filter (fun f => negb (N.eqb tmp f)) (tmp_files s)) s, Ok tt)
    else (s, Ok tt).

(** The payload built for an item from the ASR result and the local date
    and time. *)
Definition build_data (item : WorkItem) (local : option str * option str)
  (final : str) : Payload :=
  {| p_device_id := device_id item;
     p_recorded_at := recorded_at item;
     p_local_date := fst local;
     p_local_time := snd local;
     vibe_transcriber_result := final |}.

(** What is done with the ASR result of an item (lines 208 to 312):
    classification, local date and time, upsert, final log line. *)
Definition store_transcription (item : WorkItem)
  (transcription_result : AsrResult) : M unit :=
  let transcription := strip (transcription transcription_result) in
  is_quota_exceeded <- quota_check transcription_result transcription ;;
  local <- fetch_local (device_id item) (recorded_at item) ;;
  let data := build_data item local (final_transcription transcription) in
  upsert_with_retry data ;;
  logger INFO (if str_truthy transcription
               then Transcribed (file_path item) (List.length transcription)
               else TranscribedNoSpeech (file_path item)).

(** The body of the outer [try] of the [for] loop, up to the point where the
    item is appended to [successfully_transcribed]: a normal return means
    the item was appended (nothing after the append can raise but the
    logger). *)
Definition transcribe_item (item : WorkItem) : M unit :=
  tmp_file_path <- NamedTemporaryFile ;;
  try_finally
    (call (CDownload (s3_bucket_name env) (file_path item) tmp_file_path)
          (download_file env (s3_bucket_name env) (file_path item)
                         tmp_file_path) ;;
     transcription_result <-
       call (CTranscribe tmp_file_path (basename (file_path item)) false true)
            (transcribe_audio env tmp_file_path (basename (file_path item))
                              false true) ;;
     store_transcription item transcription_result)
    (unlink_if_exists tmp_file_path).

(** The two result lists of the batch. *)
Record Outcome := {
  successfully_transcribed : list str;   (* the file_path of each entry *)
  errored : list WorkItem                (* error_files *)
}.

(** One turn of [for audio_file in files_to_process] with both [except]
    clauses. *)
Definition process_item (audio_file : WorkItem) (acc : Outcome) : M Outcome :=
  fun s =>
    match transcribe_item audio_file s with
    | (s', Ok _) =>
        (s', Ok {| successfully_transcribed :=
                     successfully_transcribed acc ++ [file_path audio_file];
                   errored := errored acc |})
    | (s', Raise (ClientError m)) =>
        (add_log ERROR (S3Error (file_path audio_file) (ClientError m)) s',
         Ok {| successfully_transcribed := successfully_transcribed acc;
               errored := errored acc ++ [audio_file] |})
    | (s', Raise e) =>
        (add_log ERROR (ItemError (file_path audio_file) e) s',
         Ok {| successfully_transcribed := successfully_transcribed acc;
               errored := errored acc ++ [audio_file] |})
    end.

Fixpoint process_files (files_to_process : list WorkItem) (acc : Outcome)
  : M Outcome :=
  match files_to_process with
  | [] => ret acc
  | audio_file :: rest =>
      acc' <- process_item audio_file acc ;;
      process_files rest acc'
  end.

(** *** Resolution of the work items *)

(** The loop over [file_paths] of the older interface: a path without a
    catalog record, or whose lookup raises, is logged and left out. *)
Fixpoint resolve_paths (file_paths : list str) (files_to_process : list WorkItem)
  : M (list WorkItem) :=
  match file_paths with
  | [] => ret files_to_process
  | path :: rest =>
      files_to_process' <-
        try_except
          (response_data <- call (CLookupAudioFile path)
                                 (lookup_audio_file env path) ;;
           match response_data with
           | Some (d, r) =>
               ret (files_to_process ++
                      [{| file_path := path; device_id := d;
                          recorded_at := r |}])
           | None =>
               logger WARNING (CatalogMissing path) ;; ret files_to_process
           end)
          (fun e =>
             logger ERROR (CatalogLookupError path e) ;; ret files_to_process) ;;
      resolve_paths rest files_to_process'
  end.

Definition of_audio_file (a : AudioFile) : WorkItem :=
  {| file_path := af_file_path a; device_id := af_device_id a;
     recorded_at := af_recorded_at a |}.

Definition resolve (file_paths : list str) (audio_files : option (list AudioFile))
  : M (list WorkItem) :=
  if optlist_truthy audio_files then
    ret (map of_audio_file (match audio_files with Some l => l | None => [] end))
  else resolve_paths file_paths [].

(** *** The responses *)

Definition is_new_interface (request : Request) : bool :=
  opt_truthy (req_device_id request) && opt_truthy (req_local_date request).

Definition zero_summary : Summary :=
  {| total_files := 0; already_completed := Some 0;
     pending_processed := 0; errors := 0 |}.

Definition empty_new_response (request : Request) : Response :=
  {| status := lit "success"; summary := zero_summary;
     resp_device_id := req_device_id request;
     resp_local_date := req_local_date request;
     time_blocks_requested := req_time_blocks request;
     processed_time_blocks := Some [];
     processed_files := None; error_files := None;
     message := NothingToProcessOrDone;
     asr_provider := None; asr_model := None |}.

Definition empty_old_response : Response :=
  {| status := lit "success"; summary := zero_summary;
     resp_device_id := None; resp_local_date := None;
     time_blocks_requested := None; processed_time_blocks := None;
     processed_files := Some []; error_files := None;
     message := NothingToProcess;
     asr_provider := None; asr_model := None |}.

Definition final_response (request : Request) (file_paths : list str)
  (out : Outcome) : Response :=
  let new := is_new_interface request in
  {| status := lit "success";
     summary := {| total_files := List.length file_paths;
                   already_completed := None;
                   pending_processed := List.length (successfully_transcribed out);
                   errors := List.length (errored out) |};
     resp_device_id := if new then req_device_id request else None;
     resp_local_date := if new then req_local_date request else None;
     time_blocks_requested := if new then req_time_blocks request else None;
     processed_time_blocks := None;
     processed_files := Some (successfully_transcribed out);
     error_files := if list_truthy (errored out)
                    then Some (map file_path (errored out)) else None;
     message := ProcessedWith (List.length file_paths)
                              (List.length (successfully_transcribed out))
                              (provider_name env);
     asr_provider := Some (provider_name env);
     asr_model := Some (model_name env) |}.

(** *** [fetch_and_transcribe_files] *)

(** From [if not file_paths:] (line 118) to the end. *)
Definition transcribe_resolved (request : Request) (file_paths : list str)
  (audio_files : option (list AudioFile)) : M Response :=
  if negb (list_truthy file_paths) then ret empty_old_response
  else
    logger INFO (Targets (List.length file_paths)) ;;
    files_to_process <- resolve file_paths audio_files ;;
    out <- process_files files_to_process
             {| successfully_transcribed := []; errored := [] |} ;;
    ret (final_response request file_paths out).

Definition unwrap (o : option str) : str :=
  match o with Some s => s | None => [] end.

Definition fetch_and_transcribe_files (request : Request) : M Response :=
  if is_new_interface request then
    let d := unwrap (req_device_id request) in
    let ld := unwrap (req_local_date request) in
    logger INFO (NewInterface d ld (req_time_blocks request)) ;;
    let time_filter := if optlist_truthy (req_time_blocks request)
                       then req_time_blocks request else None in
    audio_files <-
      try_except
        (audio_files <- call (CQueryAudioFiles d ld time_filter)
                             (query_audio_files env d ld time_filter) ;;
         logger INFO (CatalogCount (List.length audio_files)) ;;
         ret audio_files)
        (fun e =>
           logger ERROR (CatalogQueryError e) ;;
           raise (HTTPException 500 (DbQueryError e))) ;;
    let file_paths := map af_file_path audio_files in
    if negb (list_truthy file_paths) then ret (empty_new_response request)
    else transcribe_resolved request file_paths (Some audio_files)
  else if optlist_truthy (req_file_paths request) then
    let file_paths := match req_file_paths request with
                      | Some l => l | None => [] end in
    logger INFO (OldInterface (List.length file_paths)) ;;
    transcribe_resolved request file_paths None
  else raise (HTTPException 400 MissingSelector).

(** *** [update_status] *)

Definition update_status (device_id recorded_at status_field status_value : str)
  : M unit :=
  try_except
    (response_data <-
       call (CUpdate device_id recorded_at status_field status_value)
            (update_spot env device_id recorded_at status_field status_value) ;;
     if list_truthy response_data then
       logger INFO (StatusUpdated device_id recorded_at status_field
                                  status_value)
     else
       call (CInsert device_id recorded_at status_field status_value)
            (insert_spot env device_id recorded_at status_field
                         status_value) ;;
       logger INFO (StatusRecordCreated device_id recorded_at status_field
                                        status_value))
    (fun e => logger ERROR (StatusUpdateFailed e) ;; raise e).

(** ** The routes *)

Definition vibe_status : str := lit "vibe_status".
Definition FEATURE_TYPE : str := lit "vibe".

(** [sqs.send_message]: the message is in the queue when the call returns
    normally. *)
Definition sqs_send_message (ev : Event) : M unit :=
  call (CSend ev) (send_message env ev) ;;
  (fun s => (add_event ev s, Ok tt)).

Definition completed_event (device_id recorded_at : str) (result : Response)
  : Event :=
  {| ev_device_id := device_id; ev_recorded_at := recorded_at;
     ev_feature_type := FEATURE_TYPE; ev_status := lit "completed";
     ev_processed_files :=
       Some (match processed_files result with Some l => l | None => [] end);
     ev_error := None |}.

Definition failed_event (device_id recorded_at : str) (e : Exn) : Event :=
  {| ev_device_id := device_id; ev_recorded_at := recorded_at;
     ev_feature_type := FEATURE_TYPE; ev_status := lit "failed";
     ev_processed_files := None; ev_error := Some e |}.

(** [FetchAndTranscribeRequest(file_paths=[file_path], model="groq")] *)
Definition single_file_request (file_path : str) : Request :=
  {| req_file_paths := Some [file_path]; req_device_id := None;
     req_local_date := None; req_time_blocks := None;
     req_model := lit "groq" |}.

Definition process_in_background (file_path device_id recorded_at : str)
  : M unit :=
  logger INFO (BackgroundStarted device_id) ;;
  try_except
    (let request := single_file_request file_path in
     result <- fetch_and_transcribe_files request ;;
     update_status device_id recorded_at vibe_status (lit "completed") ;;
     sqs_send_message (completed_event device_id recorded_at result) ;;
     logger INFO (BackgroundCompleted device_id))
    (fun e =>
       logger ERROR (BackgroundFailed device_id e) ;;
       try_except
         (update_status device_id recorded_at vibe_status (lit "failed"))
         (fun _ => ret tt) ;;
       sqs_send_message (failed_event device_id recorded_at e)).

Definition async_process (request : AsyncProcessRequest) : M Accepted :=
  logger INFO (AsyncStarting (a_device_id request) (a_recorded_at request)) ;;
  try_except
    (update_status (a_device_id request) (a_recorded_at request)
                   vibe_status (lit "processing"))
    (fun e => logger ERROR (AsyncStatusFailed e)) ;;
  add_task {| t_file_path := a_file_path request;
              t_device_id := a_device_id request;
              t_recorded_at := a_recorded_at request |} ;;
  ret {| acc_status := lit "accepted";
         acc_message := lit "Processing started in background";
         acc_device_id := a_device_id request;
         acc_recorded_at := a_recorded_at request |}.

Definition str_eqb (a b : str) : bool :=
  if list_eq_dec N.eq_dec a b then true else false.

Definition fetch_and_transcribe (request : Request) : M Response :=
  if negb (existsb (str_eqb (req_model request)) [lit "azure"; lit "groq"])
  then raise (HTTPException 400 (UnsupportedModel (req_model request)))
  else
    try_except
      (fetch_and_transcribe_files request)
      (fun e =>
         match e with
         | HTTPException _ _ => raise e
         | _ =>
             logger ERROR (EndpointError e) ;;
             raise (HTTPException 500 (Unexpected e))
         end).

(** A route as the client sees it. *)
Definition serve {A} (status_code : nat) (handler : M A)
  : State -> State * Http A :=
  fun s =>
    match handler s with
    | (s', Ok body) => (s', HttpReturn status_code body)
    | (s', Raise (HTTPException code _)) => (s', HttpFailure code)
    | (s', Raise _) => (s', HttpFailure 500)
    end.

(** [POST /async-process] (status code 202) and [POST /fetch-and-transcribe]
    (status code 200). *)
Definition post_async_process (request : AsyncProcessRequest) :=
  serve 202 (async_process request).

Definition post_fetch_and_transcribe (request : Request) :=
  serve 200 (fetch_and_transcribe request).

(** The background tasks run after the response was sent: the scheduled
    task is run from the state the request left. *)
Definition run_task (t : Task) : M unit :=
  process_in_background (t_file_path t) (t_device_id t) (t_recorded_at t).

End Transcriber.

Arguments mkState {W} world trace log tmp_files queue tasks.
Arguments unlink_if_exists {W} tmp.

(** The same services read at another clock. *)
Definition with_clock {W} (env : Env W) (clk : W -> Z) : Env W :=
  {| query_audio_files := query_audio_files env;
     lookup_audio_file := lookup_audio_file env;
     lookup_local := lookup_local env;
     create_temp := create_temp env;
     download_file := download_file env;
     transcribe_audio := transcribe_audio env;
     sleep := sleep env;
     upsert := upsert env;
     select_spot := select_spot env;
     update_spot := update_spot env;
     insert_spot := insert_spot env;
     send_message := send_message env;
     utc_now := clk;
     s3_bucket_name := s3_bucket_name env;
     provider_name := provider_name env;
     model_name := model_name env |}.

(** ** The shape of a run of the upsert loop

    What can happen in one attempt, told by the calls it makes and their
    answers. *)
Inductive Attempt :=
| Confirmed          (* upsert answered with the row *)
| Reconciled         (* no data, the read at the key found a row *)
| TransportFailure   (* upsert raised *)
| Unconfirmed        (* no data, the read at the key found nothing *)
| CheckFailure.      (* no data, the read at the key raised *)

Definition succeeded (a : Attempt) : bool :=
  match a with Confirmed | Reconciled => true | _ => false end.

Definition attempt_calls (data : Payload) (a : Attempt) : list Call :=
  let check := CSelect (p_device_id data) (p_recorded_at data) in
  match a with
  | Confirmed => [CUpsert data WithData]
  | Reconciled => [CUpsert data WithoutData; check WithData]
  | TransportFailure => [CUpsert data Raised]
  | Unconfirmed => [CUpsert data WithoutData; check WithoutData]
  | CheckFailure => [CUpsert data WithoutData; check Raised]
  end.

(** The wait before an attempt that follows [retry_count] failed ones. *)
Definition pause (retry_count : nat) : list Call :=
  match retry_count with
  | 0 => []
  | _ => [CSleep retry_count]
  end.

(** The calls of consecutive attempts, the first one made after
    [retry_count] failures. *)
Fixpoint run_calls (data : Payload) (retry_count : nat) (run : list Attempt)
  : list Call :=
  match run with
  | [] => []
  | a :: rest =>
      pause retry_count ++ attempt_calls data a
        ++ run_calls data (S retry_count) rest
  end.

(** A run that may still make [budget] attempts: it ends with its first
    successful attempt, or with the failure of the last attempt allowed. *)
Fixpoint complete_run (budget : nat) (run : list Attempt) : bool :=
  match budget, run with
  | S budget', a :: rest =>
      if succeeded a then match rest with [] => true | _ => false end
      else match budget' with
           | 0 => match rest with [] => true | _ => false end
           | _ => complete_run budget' rest
           end
  | _, _ => false
  end.

Definition is_sleep (c : Call) : bool :=
  match c with CSleep _ => true | _ => false end.

Definition is_upsert (c : Call) : bool :=
  match c with CUpsert _ _ => true | _ => false end.

(** The payloads handed to [upsert] among some calls. *)
Fixpoint upserted (calls : list Call) : list Payload :=
  match calls with
  | [] => []
  | CUpsert p _ :: rest => p :: upserted rest
  | _ :: rest => upserted rest
  end.

(** ** States that differ in the log only *)
Definition same_but_log {W} (s1 s2 : State W) : Prop :=
  world s1 = world s2 /\ trace s1 = trace s2 /\ tmp_files s1 = tmp_files s2
  /\ queue s1 = queue s2 /\ tasks s1 = tasks s2.

(** ** An in-memory double of the outside services

    Used to run the program on concrete inputs: the two tables are lists,
    the ASR answer is fixed per file name, and the faults of the datastore
    and of the queue are scripted. *)

Module Double.

(** How the datastore acknowledges an upsert: with the row, with no data
    (the row written or not), or with a transport error. *)
Inductive Ack :=
| AckRow
| AckNoData (written : bool)
| AckError.

Record World := {
  clock : Z;                    (* seconds since the epoch, UTC *)
  upsert_calls : nat;           (* upserts received so far *)
  spot_features : list Row
}.

Record Script := {
  audio_files : list (AudioFile * option str);   (* rows, with local_time *)
  asr : str -> result AsrResult;                 (* by file name *)
  download_ok : bool;
  ack : nat -> Ack;                              (* by upsert number *)
  status_ok : bool;                              (* update and insert work *)
  send_ok : bool
}.

Definition same_key (d r : str) (row : Row) : bool :=
  str_eqb d (r_device_id row) && str_eqb r (r_recorded_at row).

Definition find_rows (d r : str) (t : list Row) : list Row :=
  filter (same_key d r) t.

(** INSERT ... ON CONFLICT (device_id, recorded_at) DO UPDATE of the
    payload's columns. *)
Definition write_row (p : Payload) (t : list Row) : list Row :=
  let old_status :=
    match find_rows (p_device_id p) (p_recorded_at p) t with
    | row :: _ => r_vibe_status row
    | [] => None
    end in
  filter (fun row => negb (same_key (p_device_id p) (p_recorded_at p) row)) t
  ++ [{| r_device_id := p_device_id p; r_recorded_at := p_recorded_at p;
         r_local_date := p_local_date p; r_local_time := p_local_time p;
         r_vibe_transcriber_result := Some (vibe_transcriber_result p);
         r_vibe_status := old_status |}].

Definition set_status (value : str) (row : Row) : Row :=
  {| r_device_id := r_device_id row; r_recorded_at := r_recorded_at row;
     r_local_date := r_local_date row; r_local_time := r_local_time row;
     r_vibe_transcriber_result := r_vibe_transcriber_result row;
     r_vibe_status := Some value |}.

Definition with_table (w : World) (t : list Row) : World :=
  {| clock := clock w; upsert_calls := upsert_calls w; spot_features := t |}.

Definition down : Exn := Exception (lit "service unavailable").

Definition env (sc : Script) : Env World :=
  {| query_audio_files := fun d ld tb w =>
       (w, Ok (map fst
                 (filter (fun a =>
                            str_eqb d (af_device_id (fst a))
                            && match af_local_date (fst a) with
                               | Some x => str_eqb ld x | None => false end
                            && match tb, af_time_block (fst a) with
                               | Some l, Some b => existsb (str_eqb b) l
                               | Some _, None => false
                               | None, _ => true
                               end)
                         (audio_files sc))));
     lookup_audio_file := fun path w =>
       match filter (fun a => str_eqb path (af_file_path (fst a)))
                    (audio_files sc) with
       | [a] => (w, Ok (Some (af_device_id (fst a), af_recorded_at (fst a))))
       | _ => (w, Raise (Exception (lit "single() did not find one row")))
       end;
     lookup_local := fun d r w =>
       (w, Ok (map (fun a => (af_local_date (fst a), snd a))
                 (filter (fun a => str_eqb d (af_device_id (fst a))
                                   && str_eqb r (af_recorded_at (fst a)))
                         (audio_files sc))));
     create_temp := fun w => (w, Ok tt);
     download_file := fun _ key _ w =>
       if download_ok sc then (w, Ok tt)
       else (w, Raise (ClientError (lit "NoSuchKey")));
     transcribe_audio := fun _ filename _ _ w => (w, asr sc filename);
     sleep := fun n w =>
       {| clock := clock w + Z.of_nat n; upsert_calls := upsert_calls w;
          spot_features := spot_features w |};
     upsert := fun p w =>
       let w' := {| clock := clock w; upsert_calls := S (upsert_calls w);
                    spot_features := spot_features w |} in
       match ack sc (upsert_calls w) with
       | AckRow =>
           let t := write_row p (spot_features w) in
           (with_table w' t, Ok (find_rows (p_device_id p) (p_recorded_at p) t))
       | AckNoData true => (with_table w' (write_row p (spot_features w)), Ok [])
       | AckNoData false => (w', Ok [])
       | AckError => (w', Raise down)
       end;
     select_spot := fun d r w => (w, Ok (find_rows d r (spot_features w)));
     update_spot := fun d r field value w =>
       if status_ok sc then
         let t := map (fun row => if same_key d r row
                                  then set_status value row else row)
                      (spot_features w) in
         (with_table w t, Ok (find_rows d r t))
       else (w, Raise down);
     insert_spot := fun d r field value w =>
       if status_ok sc then
         (with_table w
            (spot_features w ++
               [{| r_device_id := d; r_recorded_at := r;
                   r_local_date := None; r_local_time := None;
                   r_vibe_transcriber_result := None;
                   r_vibe_status := Some value |}]), Ok tt)
       else (w, Raise down);
     send_message := fun _ w =>
       if send_ok sc then (w, Ok tt) else (w, Raise down);
     utc_now := clock;
     s3_bucket_name := lit "watchme-vault";
     provider_name := lit "groq";
     model_name := lit "whisper-large-v3-turbo" |}.

(** A state with nothing logged, called or stored yet, at a given time. *)
Definition start (now : Z) (table : list Row) : State World :=
  mkState {| clock := now; upsert_calls := 0; spot_features := table |}
          [] [] [] [] [].

(** The catalog of the scenarios: one recording [x.wav] of device [d2]. *)
Definition x_wav : AudioFile :=
  {| af_file_path := lit "files/d2/x.wav"; af_device_id := lit "d2";
     af_recorded_at := lit "2024-01-01T00:00:00Z";
     af_local_date := Some (lit "2024-01-01");
     af_time_block := Some (lit "09-00") |}.

Definition hello : AsrResult :=
  {| transcription := lit "hello"; no_speech_detected := Some false |}.

(** Everything works and the ASR hears [text]. *)
Definition healthy (text : str) : Script :=
  {| audio_files := [(x_wav, Some (lit "09:00:00"))];
     asr := fun _ => Ok {| transcription := text;
                           no_speech_detected := None |};
     download_ok := true; ack := fun _ => AckRow;
     status_ok := true; send_ok := true |}.

(** The ASR call raises for every file. *)
Definition asr_raises : Script :=
  {| audio_files := [(x_wav, Some (lit "09:00:00"))];
     asr := fun _ => Raise (Exception (lit "ASR provider error"));
     download_ok := true; ack := fun _ => AckRow;
     status_ok := true; send_ok := true |}.


(** Every upsert is acknowledged without data and writes nothing. *)
Definition never_confirmed : Script :=
  {| audio_files := [(x_wav, Some (lit "09:00:00"))];
     asr := fun _ => Ok hello;
     download_ok := true; ack := fun _ => AckNoData false;
     status_ok := true; send_ok := true |}.

(** The first upsert writes the row but is acknowledged without data. *)
Definition first_unconfirmed : Script :=
  {| audio_files := [(x_wav, Some (lit "09:00:00"))];
     asr := fun _ => Ok hello;
     download_ok := true;
     ack := fun n => match n with 0 => AckNoData true | _ => AckRow end;
     status_ok := true; send_ok := true |}.

(** The queue refuses every message. *)
Definition queue_down : Script :=
  {| audio_files := [(x_wav, Some (lit "09:00:00"))];
     asr := fun _ => Ok hello;
     download_ok := true; ack := fun _ => AckRow;
     status_ok := true; send_ok := false |}.

Definition x_item : WorkItem := of_audio_file x_wav.

Definition x_request : AsyncProcessRequest :=
  {| a_file_path := lit "files/d2/x.wav"; a_device_id := lit "d2";
     a_recorded_at := lit "2024-01-01T00:00:00Z" |}.

Definition x_payload (text : str) : Payload :=
  {| p_device_id := lit "d2"; p_recorded_at := lit "2024-01-01T00:00:00Z";
     p_local_date := Some (lit "2024-01-01");
     p_local_time := Some (lit "09:00:00");
     vibe_transcriber_result := text |}.

Definition x_path : str := lit "files/d2/x.wav".

(** The error records of a log. *)
Definition error_log (l : list (Level * LogMsg)) : list LogMsg :=
  map snd (filter (fun x => match fst x with ERROR => true | _ => false end) l).

(** The async endpoint followed by the run of the tasks it scheduled. *)
Definition accept_and_run (sc : Script) (request : AsyncProcessRequest)
  (s : State World) : State World :=
  let s1 := fst (post_async_process (env sc) request s) in
  fold_left (fun st t => fst (run_task (env sc) t st)) (tasks s1) s1.

End Double.

(** ** [TranscriberService.__init__]

    The constructor reads the process environment and builds the three
    clients.  The clients' constructors are outside calls that may raise;
    a [ValueError] is an [Exception]. *)

Section Construction.

Variables Asr Supabase S3 : Type.

Record Runtime := {
  getenv : str -> option str;                      (* os.getenv(name) *)
  get_current_asr : result Asr;
  create_client : str -> str -> result Supabase;   (* url, key *)
  boto3_client : str -> str -> str -> result S3    (* key id, secret, region *)
}.

Record TranscriberService := {
  svc_asr_provider : Asr;
  svc_supabase : Supabase;
  svc_s3_bucket_name : str;
  svc_s3_client : S3
}.

Inductive InitLog :=
| AsrInitialised
| SupabaseConfigured (url : str)
| S3Configured (bucket region : str).

(** "SUPABASE_URLおよびSUPABASE_KEYが設定されていません" *)
Definition SUPABASE_NOT_SET : str :=
  [83; 85; 80; 65; 66; 65; 83; 69; 95; 85; 82; 76; 12362; 12424; 12403; 83;
   85; 80; 65; 66; 65; 83; 69; 95; 75; 69; 89; 12364; 35373; 23450; 12373;
   12428; 12390; 12356; 12414; 12379; 12435]%N.

(** "AWS_ACCESS_KEY_IDおよびAWS_SECRET_ACCESS_KEYが設定されていません" *)
Definition AWS_NOT_SET : str :=
  [65; 87; 83; 95; 65; 67; 67; 69; 83; 83; 95; 75; 69; 89; 95; 73; 68; 12362;
   12424; 12403; 65; 87; 83; 95; 83; 69; 67; 82; 69; 84; 95; 65; 67; 67; 69;
   83; 83; 95; 75; 69; 89; 12364; 35373; 23450; 12373; 12428; 12390; 12356;
   12414; 12379; 12435]%N.

(** [os.getenv(name, default)] *)
Definition getenv_or (rt : Runtime) (name default : str) : str :=
  match getenv rt name with Some v => v | None => default end.

Definition init (rt : Runtime) : list InitLog * result TranscriberService :=
  match get_current_asr rt with
  | Raise e => ([], Raise e)
  | Ok asr =>
      let supabase_url := getenv rt (lit "SUPABASE_URL") in
      let supabase_key := getenv rt (lit "SUPABASE_KEY") in
      if negb (opt_truthy supabase_url) || negb (opt_truthy supabase_key) then
        ([AsrInitialised], Raise (Exception SUPABASE_NOT_SET))
      else
        match create_client rt (unwrap supabase_url) (unwrap supabase_key) with
        | Raise e => ([AsrInitialised], Raise e)
        | Ok supabase =>
            let aws_access_key_id := getenv rt (lit "AWS_ACCESS_KEY_ID") in
            let aws_secret_access_key :=
              getenv rt (lit "AWS_SECRET_ACCESS_KEY") in
            let bucket :=
              getenv_or rt (lit "S3_BUCKET_NAME") (lit "watchme-vault") in
            let aws_region := getenv_or rt (lit "AWS_REGION") (lit "us-east-1") in
            let logged :=
              [AsrInitialised; SupabaseConfigured (unwrap supabase_url)] in
            if negb (opt_truthy aws_access_key_id)
               || negb (opt_truthy aws_secret_access_key) then
              (logged, Raise (Exception AWS_NOT_SET))
            else
              match boto3_client rt (unwrap aws_access_key_id)
                                 (unwrap aws_secret_access_key) aws_region with
              | Raise e => (logged, Raise e)
              | Ok s3 =>
                  (logged ++ [S3Configured bucket aws_region],
                   Ok {| svc_asr_provider := asr; svc_supabase := supabase;
                         svc_s3_bucket_name := bucket; svc_s3_client := s3 |})
              end
        end
  end.

End Construction.

(** ** [POST /analyze/azure]: [analyze_audio] *)

(** [s.split(sep)] for a one-character separator. *)
Fixpoint split_at (sep : N) (s : str) : list str :=
  match s with
  | [] => [[]]
  | c :: t =>
      if (c =? sep)%N then [] :: split_at sep t
      else match split_at sep t with
           | seg :: rest => (c :: seg) :: rest
           | [] => [[c]]
           end
  end.

(** [str.lower()] on one character.  Capital ASCII letters, and the two
    characters outside ASCII whose lowercase contains an ASCII character
    (U+0130 and the Kelvin sign U+212A), are mapped as Python maps them.
    Every other character is kept: Python maps it to characters outside
    ASCII, and the result is only compared with ASCII strings. *)
Definition lower_char (c : N) : str :=
  if ((65 <=? c) && (c <=? 90))%N then [c + 32]%N
  else if (c =? 304)%N then [105; 775]%N
  else if (c =? 8490)%N then [107]%N
  else [c].

Definition lower (s : str) : str := flat_map lower_char s.

Definition allowed_extensions : list str :=
  [lit ".wav"; lit ".mp3"; lit ".m4a"].

(** ['.' + filename.split('.')[-1].lower()] *)
Definition file_extension (filename : str) : str :=
  46%N :: lower (last (split_at 46 filename) []).

(** 25 * 1024 * 1024 *)
Definition MAX_UPLOAD : N := (25 * 1024 * 1024)%N.

(** Why the endpoint answered with an error: the three refusals of the
    request, an [HTTPException] passed on, or any other exception. *)
Inductive UploadFailure :=
| UnsupportedFormat
| MissingFilename
| FileTooLarge
| PassedOn (detail : Detail)
| UnexpectedError (e : Exn).

Inductive UploadLog :=
| SwitchingProvider (provider model_or_default : str).

Section Upload.

(** The world, the uploaded file object, an ASR provider, the dictionary a
    provider returns and the [TranscriptionResponse] built from it. *)
Variables W F P R T : Type.

Record UploadFile := {
  up_filename : option str;
  up_size : option N;
  up_file : F
}.

Record UploadEnv := {
  (* ASRFactory.create(provider, model) *)
  ASRFactory_create : str -> option str -> W -> W * result P;
  (* transcriber_service.asr_provider *)
  service_asr_provider : P;
  (* asr_provider.transcribe_audio(file, filename, detailed, high_accuracy) *)
  up_transcribe_audio : P -> F -> str -> bool -> bool -> W -> W * result R;
  up_provider_name : P -> str;
  up_model_name : P -> str;
  (* TranscriptionResponse built from the keys of result, the two provider
     keys added *)
  TranscriptionResponse : R -> str -> str -> result T
}.

Variable uenv : UploadEnv.

(** Lines 44 to 60: the refusals made before anything is called. *)
Definition upload_refusal (file : UploadFile) : option UploadFailure :=
  if opt_truthy (up_filename file) then
    if negb (existsb (str_eqb (file_extension (unwrap (up_filename file))))
                     allowed_extensions)
    then Some UnsupportedFormat
    else
      match up_size file with
      | Some n => if ((0 <? n) && (MAX_UPLOAD <? n))%N
                  then Some FileTooLarge else None
      | None => None
      end
  else Some MissingFilename.

(** What the [except] clauses make of an exception. *)
Definition upload_failure (e : Exn) : nat * UploadFailure :=
  match e with
  | HTTPException code detail => (code, PassedOn detail)
  | _ => (500, UnexpectedError e)
  end.

(** The endpoint: the final world, the log, and the response body or the
    status code and reason of the failure. *)
Definition analyze_audio (file : UploadFile) (detailed high_accuracy : bool)
  (provider model : option str) (w : W)
  : W * list UploadLog * (T + nat * UploadFailure) :=
  match upload_refusal file with
  | Some why => (w, [], inr (400, why))
  | None =>
      let filename := unwrap (up_filename file) in
      let '(w1, logged, chosen) :=
        if opt_truthy provider then
          let '(w1, r) := ASRFactory_create uenv (unwrap provider) model w in
          (w1,
           [SwitchingProvider (unwrap provider)
              (if opt_truthy model then unwrap model else lit "default")],
           r)
        else (w, [], Ok (service_asr_provider uenv)) in
      match chosen with
      | Raise e => (w1, logged, inr (upload_failure e))
      | Ok asr_provider =>
          match up_transcribe_audio uenv asr_provider (up_file file) filename
                                    detailed high_accuracy w1 with
          | (w2, Raise e) => (w2, logged, inr (upload_failure e))
          | (w2, Ok result) =>
              match TranscriptionResponse uenv result
                      (up_provider_name uenv asr_provider)
                      (up_model_name uenv asr_provider) with
              | Raise e => (w2, logged, inr (upload_failure e))
              | Ok response => (w2, logged, inl response)
              end
          end
      end
  end.

(** The exception [e] was raised inside the [try] block of the endpoint: by
    the factory asked for the provider named in the query, by the
    transcription of the uploaded file under its name, or by the
    construction of the response. *)
Definition upload_raised (file : UploadFile) (detailed high_accuracy : bool)
  (provider model : option str) (w : W) (e : Exn) : Prop :=
  (opt_truthy provider = true /\
   exists w1,
     ASRFactory_create uenv (unwrap provider) model w = (w1, Raise e)) \/
  (exists asr_provider w1 w2,
      up_transcribe_audio uenv asr_provider (up_file file)
        (unwrap (up_filename file)) detailed high_accuracy w1
      = (w2, Raise e)) \/
  (exists asr_provider result,
      TranscriptionResponse uenv result (up_provider_name uenv asr_provider)
        (up_model_name uenv asr_provider) = Raise e).

End Upload.

(** ** The fate of a requested path *)

Inductive Fate := Processed | Errored | Unresolved.

Definition is_processed (f : Fate) : bool :=
  match f with Processed => true | _ => false end.

Definition is_errored (f : Fate) : bool :=
  match f with Errored => true | _ => false end.

Definition is_unresolved (f : Fate) : bool :=
  match f with Unresolved => true | _ => false end.

(** The elements of [l] whose label satisfies [p]. *)
Fixpoint pick_by {A L} (p : L -> bool) (labels : list L) (l : list A)
  : list A :=
  match labels, l with
  | x :: labels', a :: l' =>
      if p x then a :: pick_by p labels' l' else pick_by p labels' l'
  | _, _ => []
  end.

(** The fates of the requested paths, from which of them resolved and from
    how the resolved ones ended. *)
Fixpoint fates (resolved outcome : list bool) : list Fate :=
  match resolved with
  | [] => []
  | false :: resolved' => Unresolved :: fates resolved' outcome
  | true :: resolved' =>
      match outcome with
      | true :: outcome' => Processed :: fates resolved' outcome'
      | false :: outcome' => Errored :: fates resolved' outcome'
      | [] => Unresolved :: fates resolved' []
      end
  end.

(** What the catalog answers to the lookups of the older interface, made one
    after the other from the world [w]: for each path, whether a record was
    returned (a lookup that returns none, or raises, resolves nothing). *)
Fixpoint catalog_answers {W} (env : Env W) (file_paths : list str) (w : W)
  : list bool :=
  match file_paths with
  | [] => []
  | path :: rest =>
      match lookup_audio_file env path w with
      | (w', Ok (Some _)) => true :: catalog_answers env rest w'
      | (w', _) => false :: catalog_answers env rest w'
      end
  end.

(** ** Requests that differ in one field *)

Definition with_model (request : Request) (m : str) : Request :=
  {| req_file_paths := req_file_paths request;
     req_device_id := req_device_id request;
     req_local_date := req_local_date request;
     req_time_blocks := req_time_blocks request;
     req_model := m |}.

Definition with_file_paths (request : Request) (fps : option (list str))
  : Request :=
  {| req_file_paths := fps;
     req_device_id := req_device_id request;
     req_local_date := req_local_date request;
     req_time_blocks := req_time_blocks request;
     req_model := req_model request |}.

(** The hour of the day in UTC. *)
Definition utc_hour (now : Z) : Z := (now / 3600) mod 24.

(** ** Vocabulary of the properties *)

Section Vocabulary.

Variable W : Type.
Variable env : Env W.

Local Abbreviation M := (M W).
Local Abbreviation State := (State W).

(** The part of the state that only the temporary files, the queue and
    the task list make up is the same in [s] and [s']. *)
Definition same_files (s s' : State) : Prop :=
  tmp_files s' = tmp_files s /\ queue s' = queue s /\ tasks s' = tasks s.

(** Computations that leave files, queue and tasks alone. *)
Definition steady {A} (c : M A) : Prop :=
  forall s, same_files s (fst (c s)).

(** Two computations that, from states equal up to the log, end in states
    equal up to the log with the same result. *)
Definition blind {A} (c1 c2 : M A) : Prop :=
  forall s1 s2, same_but_log s1 s2 ->
    same_but_log (fst (c1 s1)) (fst (c2 s2)) /\ snd (c1 s1) = snd (c2 s2).

(** The elements of [l] whose flag is [b]. *)
Fixpoint pick {A} (b : bool) (flags : list bool) (l : list A) : list A :=
  match flags, l with
  | f :: flags', x :: l' =>
      if Bool.eqb f b then x :: pick b flags' l' else pick b flags' l'
  | _, _ => []
  end.

Definition no_outcome : Outcome :=
  {| successfully_transcribed := []; errored := [] |}.

(** The calls of one status update. *)
Definition status_calls (d r f v : str) (calls : list Call) : Prop :=
  calls = [CUpdate d r f v] \/ calls = [CUpdate d r f v; CInsert d r f v].

(** The queue takes every message it is sent. *)
Definition queue_accepts : Prop :=
  forall ev w, snd (send_message env ev w) = Ok tt.


(** How the [try] block of the background task ended after the pipeline left
    the state [s1] with the response [resp]: the update of the status to
    "completed" and the send of the completed event both returned, or one of
    them raised [e] (the send is only reached when the update returned). *)
Definition completion_returned (d r : str) (resp : Response) (s1 : State)
  : Prop :=
  exists s2 s3,
    update_status env d r vibe_status (lit "completed") s1 = (s2, Ok tt) /\
    sqs_send_message env (completed_event d r resp) s2 = (s3, Ok tt).

Definition completion_raised (d r : str) (resp : Response) (s1 : State)
  (e : Exn) : Prop :=
  (exists s2,
      update_status env d r vibe_status (lit "completed") s1 = (s2, Raise e))
  \/
  (exists s2 s3,
      update_status env d r vibe_status (lit "completed") s1 = (s2, Ok tt) /\
      sqs_send_message env (completed_event d r resp) s2 = (s3, Raise e)).

(** When the quota heuristic fires. *)
Definition quota_suspected (res : AsrResult) (transcription : str) (now : Z)
  : Prop :=
  transcription = [] /\ no_speech_flag res = false /\ (jst_hour now < 9)%Z.

End Vocabulary.

(** * Properties *)

Section Properties.

Variable W : Type.
Variable env : Env W.

Local Abbreviation M := (M W).
Local Abbreviation State := (State W).

(** ** The loop equation *)

Lemma upsert_loop_step (data : Payload) (rc : nat) (ok : bool) (s : State) :
  upsert_loop env data rc ok s =
  if (rc <? max_retries) && negb ok then
    match upsert_turn env data rc s with
    | (s', Raise e) => (s', Raise e)
    | (s', Ok (rc', ok')) => upsert_loop env data rc' ok' s'
    end
  else (s, Ok tt).
Proof.
  revert data rc ok s.
  apply (upsert_loop_elim env
           (fun data rc ok s res =>
              res = if (rc <? max_retries) && negb ok then
                      match upsert_turn env data rc s with
                      | (s', Raise e) => (s', Raise e)
                      | (s', Ok (rc', ok')) => upsert_loop env data rc' ok' s'
                      end
                    else (s, Ok tt))); cbv zeta.
  - intros data rc ok Hc s _. rewrite Hc. reflexivity.
  - intros data rc ok Hc s s' rc' ok' Ht _ _ _. rewrite Hc, Ht. reflexivity.
  - intros data rc ok Hc s s' e Ht _ _. rewrite Hc, Ht. reflexivity.
Qed.

(** ** One turn of the upsert loop *)

Lemma same_files_refl (s : State) : same_files s s.
Proof. repeat split. Qed.

Lemma same_files_trans (s1 s2 s3 : State) :
  same_files s1 s2 -> same_files s2 s3 -> same_files s1 s3.
Proof.
  intros (A1 & A2 & A3) (B1 & B2 & B3).
  repeat split; congruence.
Qed.

Local Ltac turn_case a Ht0 Hf0 :=
  exists a; do 2 eexists; split; [reflexivity |]; cbn;
  split; [rewrite Ht0; repeat rewrite <- app_assoc; reflexivity |];
  split; [destruct Hf0 as (? & ? & ?); repeat split; assumption |];
  first [ left; split; reflexivity
        | right; split; [reflexivity |];
          first [ left; split; [unfold max_retries; lia | reflexivity]
                | right; split; [unfold max_retries; lia
                                | eexists; reflexivity] ] ].

Lemma upsert_turn_spec (data : Payload) (rc : nat) (s : State) :
  rc < max_retries ->
  exists a s' r,
    upsert_turn env data rc s = (s', r) /\
    trace s' = trace s ++ pause rc ++ attempt_calls data a /\
    same_files s s' /\
    ((succeeded a = true /\ r = Ok (rc, true)) \/
     (succeeded a = false /\
      ((rc + 1 < max_retries /\ r = Ok (rc + 1, false)) \/
       (max_retries <= rc + 1 /\ exists e, r = Raise e)))).
Proof.
  intros Hrc. unfold upsert_turn, upsert_try, call_rows.
  set (s0 := if 0 <? rc then _ else s).
  assert (H0 : trace s0 = trace s ++ pause rc /\ same_files s s0).
  { subst s0. destruct rc; cbn.
    - rewrite app_nil_r. split; [reflexivity | apply same_files_refl].
    - rewrite Nat.add_0_r. split; [reflexivity | repeat split]. }
  destruct H0 as (Ht0 & Hf0). clearbody s0.
  assert (Hcases : rc = 0 \/ rc = 1 \/ rc = 2) by (unfold max_retries in Hrc; lia).
  destruct (upsert env data (world s0)) as [w1 [[|row rows]|e]]; cbn.
  - destruct (select_spot env (p_device_id data) (p_recorded_at data) w1)
      as [w2 [[|r2 rows2]|e2]];
      destruct Hcases as [-> | [-> | ->]]; cbn.
    + turn_case Unconfirmed Ht0 Hf0.
    + turn_case Unconfirmed Ht0 Hf0.
    + turn_case Unconfirmed Ht0 Hf0.
    + turn_case Reconciled Ht0 Hf0.
    + turn_case Reconciled Ht0 Hf0.
    + turn_case Reconciled Ht0 Hf0.
    + turn_case CheckFailure Ht0 Hf0.
    + turn_case CheckFailure Ht0 Hf0.
    + turn_case CheckFailure Ht0 Hf0.
  - turn_case Confirmed Ht0 Hf0.
  - destruct Hcases as [-> | [-> | ->]]; cbn; turn_case TransportFailure Ht0 Hf0.
Qed.

(** ** The whole loop *)

Lemma upsert_loop_done (data : Payload) (rc : nat) (s : State) :
  upsert_loop env data rc true s = (s, Ok tt).
Proof.
  rewrite upsert_loop_step, andb_false_r. reflexivity.
Qed.

Lemma upsert_loop_spec (data : Payload) (n rc : nat) (s : State) :
  rc + n = max_retries -> 0 < n ->
  exists run s' r,
    upsert_loop env data rc false s = (s', r) /\
    complete_run n run = true /\
    trace s' = trace s ++ run_calls data rc run /\
    same_files s s' /\
    (existsb succeeded run = true -> r = Ok tt) /\
    (existsb succeeded run = false ->
     List.length run = n /\ exists e, r = Raise e).
Proof.
  revert rc s. induction n as [|n IH]; intros rc s Hn Hpos; [lia |].
  assert (Hrc : rc < max_retries) by lia.
  rewrite upsert_loop_step.
  replace (rc <? max_retries) with true by (symmetry; now apply Nat.ltb_lt).
  cbn [andb negb].
  destruct (upsert_turn_spec data s Hrc)
    as (a & s1 & r1 & Hturn & Htr & Hfiles & Hres).
  rewrite Hturn.
  destruct Hres as [[Hs ->] | [Hs [[Hlt ->] | [Hge [e ->]]]]].
  - (* the attempt succeeded *)
    exists [a], s1, (Ok tt). rewrite upsert_loop_done.
    cbn. rewrite Hs, app_nil_r.
    split; [reflexivity |]. split; [reflexivity |].
    split; [exact Htr |]. split; [exact Hfiles |].
    split; [reflexivity | discriminate].
  - (* it failed and another attempt is allowed *)
    destruct (IH (rc + 1) s1) as (run & s' & r & Hloop & Hc & Htr' & Hf' & Hok & Hko);
      [lia | lia |].
    exists (a :: run), s', r. rewrite Hloop.
    split; [reflexivity |].
    split.
    { cbn. rewrite Hs. destruct n as [|n']; [lia | exact Hc]. }
    split.
    { rewrite Htr', Htr. cbn [run_calls].
      replace (S rc) with (rc + 1) by lia.
      repeat rewrite <- app_assoc. reflexivity. }
    split; [eapply same_files_trans; eassumption |].
    cbn [existsb]. rewrite Hs. cbn [orb].
    split; [exact Hok |].
    intros Hnone. destruct (Hko Hnone) as [Hlen He].
    split; [cbn; lia | exact He].
  - (* it failed and it was the last one *)
    assert (n = 0) by lia. subst n.
    exists [a], s1, (Raise e).
    cbn. rewrite Hs, app_nil_r.
    split; [reflexivity |]. split; [reflexivity |].
    split; [exact Htr |]. split; [exact Hfiles |].
    split; [discriminate |].
    intros _. split; [reflexivity | eexists; reflexivity].
Qed.

Lemma complete_run_length (n : nat) (run : list Attempt) :
  complete_run n run = true -> 1 <= List.length run <= n.
Proof.
  revert run. induction n as [|n IH]; intros run H; [discriminate |].
  destruct run as [|a rest]; [discriminate |].
  cbn in H. destruct (succeeded a).
  - destruct rest; [cbn; lia | discriminate].
  - destruct n as [|n'].
    + destruct rest; [cbn; lia | discriminate].
    + specialize (IH rest H). cbn [List.length]. lia.
Qed.

Lemma sleeps_attempt (data : Payload) (a : Attempt) :
  filter is_sleep (attempt_calls data a) = [].
Proof. destruct a; reflexivity. Qed.

Lemma sleeps_run_calls (data : Payload) (run : list Attempt) (k : nat) :
  filter is_sleep (run_calls data (S k) run)
  = map CSleep (seq (S k) (List.length run)).
Proof.
  revert k. induction run as [|a rest IH]; intros k; [reflexivity |].
  cbn [run_calls pause List.length seq map].
  rewrite !filter_app, sleeps_attempt, IH. reflexivity.
Qed.

(** The waits of a run that starts with the first attempt: one second
    before the second attempt, two before the third, and so on. *)
Lemma sleeps_run (data : Payload) (run : list Attempt) :
  filter is_sleep (run_calls data 0 run)
  = map CSleep (seq 1 (List.length run - 1)).
Proof.
  destruct run as [|a rest]; [reflexivity |].
  cbn [run_calls pause List.length].
  rewrite !filter_app, sleeps_attempt, sleeps_run_calls.
  cbn. rewrite Nat.sub_0_r. reflexivity.
Qed.

Lemma upserted_app (l1 l2 : list Call) :
  upserted (l1 ++ l2) = upserted l1 ++ upserted l2.
Proof.
  induction l1 as [|c l1 IH]; [reflexivity |].
  destruct c; cbn; rewrite ?IH; reflexivity.
Qed.

(** Every attempt of a run hands the same payload to [upsert]. *)
Lemma upserted_run (data : Payload) (run : list Attempt) (k : nat) :
  upserted (run_calls data k run) = repeat data (List.length run).
Proof.
  revert k. induction run as [|a rest IH]; intros k; [reflexivity |].
  cbn [run_calls List.length repeat].
  rewrite !upserted_app, IH.
  destruct k, a; reflexivity.
Qed.

Lemma upsert_with_retry_spec (data : Payload) (s : State) :
  exists run s' r,
    upsert_with_retry env data s = (s', r) /\
    complete_run max_retries run = true /\
    trace s' = trace s ++ run_calls data 0 run /\
    same_files s s' /\
    (existsb succeeded run = true -> r = Ok tt) /\
    (existsb succeeded run = false ->
     List.length run = max_retries /\ exists e, r = Raise e).
Proof.
  unfold upsert_with_retry.
  apply upsert_loop_spec; unfold max_retries; lia.
Qed.

(** ** Computations that leave files, queue and tasks alone *)

Lemma steady_ret {A} (a : A) : @steady W A (ret a).
Proof. intros s. apply same_files_refl. Qed.

Lemma steady_raise {A} (e : Exn) : steady (@raise W A e).
Proof. intros s. apply same_files_refl. Qed.

Lemma steady_logger l m : @steady W unit (logger l m).
Proof. intros s. repeat split. Qed.

Lemma steady_call {A} c (h : W -> W * result A) : steady (call c h).
Proof. intros s. unfold call. destruct (h (world s)). repeat split. Qed.

Lemma steady_bind {A B} (c : M A) (k : A -> M B) :
  steady c -> (forall a, steady (k a)) -> steady (bind c k).
Proof.
  intros Hc Hk s. unfold bind. specialize (Hc s).
  destruct (c s) as [s1 [a|e]]; cbn in *; [| exact Hc].
  eapply same_files_trans; [exact Hc | apply Hk].
Qed.

Lemma steady_try_except {A} (c : M A) (h : Exn -> M A) :
  steady c -> (forall e, steady (h e)) -> steady (try_except c h).
Proof.
  intros Hc Hh s. unfold try_except. specialize (Hc s).
  destruct (c s) as [s1 [a|e]]; cbn in *; [exact Hc |].
  eapply same_files_trans; [exact Hc | apply Hh].
Qed.

Local Ltac steady_step :=
  match goal with
  | |- steady (bind _ _) => apply steady_bind; [| intros ?]
  | |- steady (try_except _ _) => apply steady_try_except; [| intros ?]
  | |- steady (ret _) => apply steady_ret
  | |- steady (raise _) => apply steady_raise
  | |- steady (logger _ _) => apply steady_logger
  | |- steady (call _ _) => apply steady_call
  | |- steady (match ?x with _ => _ end) => destruct x
  end.

Lemma steady_quota_check res t : steady (quota_check env res t).
Proof.
  intros s. unfold quota_check.
  destruct (negb (str_truthy t) && negb (no_speech_flag res));
    [| apply same_files_refl].
  destruct (jst_hour (utc_now env (world s)) <? 9)%Z;
    [| apply same_files_refl].
  repeat split.
Qed.

Lemma steady_fetch_local d r : steady (fetch_local env d r).
Proof. unfold fetch_local. repeat steady_step. Qed.

Lemma steady_upsert_with_retry data : steady (upsert_with_retry env data).
Proof.
  intros s.
  destruct (upsert_with_retry_spec data s) as (run & s' & r & -> & _ & _ & H & _).
  exact H.
Qed.

Lemma steady_store_transcription item res :
  steady (store_transcription env item res).
Proof.
  unfold store_transcription.
  apply steady_bind; [apply steady_quota_check | intros ?].
  apply steady_bind; [apply steady_fetch_local | intros ?].
  apply steady_bind; [apply steady_upsert_with_retry | intros ?].
  apply steady_logger.
Qed.

Lemma steady_update_status d r f v : steady (update_status env d r f v).
Proof. unfold update_status. repeat steady_step. Qed.

(** ** Temporary files *)

Lemma fold_max_ge (fs : list N) (x : N) :
  In x fs -> (x <= fold_right N.max 0 fs)%N.
Proof.
  induction fs as [|f fs IH]; intros Hin; [contradiction |].
  cbn. destruct Hin as [-> | Hin]; [lia |].
  specialize (IH Hin). lia.
Qed.

Lemma unused_name_fresh (fs : list N) : ~ In (unused_name fs) fs.
Proof.
  intros Hin. apply fold_max_ge in Hin. unfold unused_name in Hin. lia.
Qed.

Lemma remove_fresh (tmp : N) (fs : list N) :
  ~ In tmp fs -> filter (fun f => negb (N.eqb tmp f)) fs = fs.
Proof.
  induction fs as [|f fs IH]; intros Hnot; [reflexivity |].
  cbn. destruct (N.eqb_spec tmp f) as [-> | Hne].
  - exfalso. apply Hnot. now left.
  - cbn. rewrite IH; [reflexivity |]. intros Hin. apply Hnot. now right.
Qed.

(** Deleting the file that was created last restores the directory. *)
Lemma unlink_created (tmp : N) (s : State) :
  ~ In tmp (tmp_files s) ->
  forall s1 : State, tmp_files s1 = tmp :: tmp_files s ->
  tmp_files (fst (unlink_if_exists tmp s1)) = tmp_files s
  /\ snd (unlink_if_exists tmp s1) = Ok tt
  /\ queue (fst (unlink_if_exists tmp s1)) = queue s1
  /\ tasks (fst (unlink_if_exists tmp s1)) = tasks s1
  /\ trace (fst (unlink_if_exists tmp s1)) = trace s1
  /\ world (fst (unlink_if_exists tmp s1)) = world s1.
Proof.
  intros Hfresh s1 Hs1. unfold unlink_if_exists. rewrite Hs1.
  cbn. rewrite N.eqb_refl. cbn.
  rewrite remove_fresh by exact Hfresh. repeat split.
Qed.

(** The temporary file of an item is gone when the item is left, however it
    is left. *)
Lemma transcribe_item_files (item : WorkItem) (s : State) :
  same_files s (fst (transcribe_item env item s)).
Proof.
  unfold transcribe_item, NamedTemporaryFile.
  unfold bind at 1. unfold bind at 1. unfold call at 1.
  destruct (create_temp env (world s)) as [w [u|e]]; cbn [fst snd];
    [| repeat split].
  set (s0 := set_world w (add_call CCreateTemp s)).
  set (tmp := unused_name (tmp_files s0)).
  unfold try_finally.
  match goal with
  | |- context [bind ?c ?k (set_tmp ?fs s0)] =>
      assert (Hbody : steady (bind c k));
      [| specialize (Hbody (set_tmp fs s0));
         destruct (bind c k (set_tmp fs s0)) as [s2 r] ]
  end.
  { apply steady_bind; [apply steady_call | intros ?].
    apply steady_bind; [apply steady_call | intros ?].
    apply steady_store_transcription. }
  destruct Hbody as (Hf & Hq & Hk). cbn in Hf, Hq, Hk.
  destruct (@unlink_created tmp s (unused_name_fresh (tmp_files s)) s2 Hf)
    as (Hf' & Hr & Hq' & Hk' & _).
  destruct (unlink_if_exists tmp s2) as [s3 r3]. cbn in *. subst r3.
  repeat split; cbn; congruence.
Qed.

Lemma process_item_spec (item : WorkItem) (acc : Outcome) (s : State) :
  exists s' acc',
    process_item env item acc s = (s', Ok acc') /\
    same_files s s' /\
    ((successfully_transcribed acc'
        = successfully_transcribed acc ++ [file_path item]
      /\ errored acc' = errored acc
      /\ snd (transcribe_item env item s) = Ok tt)
     \/
     (successfully_transcribed acc' = successfully_transcribed acc
      /\ errored acc' = errored acc ++ [item]
      /\ exists e, snd (transcribe_item env item s) = Raise e)).
Proof.
  unfold process_item.
  pose proof (transcribe_item_files item s) as Hf.
  destruct (transcribe_item env item s) as [s1 [[]|e]]; cbn [fst snd] in *.
  - do 2 eexists. split; [reflexivity |]. split; [exact Hf |].
    left. cbn. repeat split.
  - destruct Hf as (? & ? & ?).
    destruct e; do 2 eexists; (split; [reflexivity |]);
      (split; [repeat split; assumption |]);
      right; cbn; repeat split; eexists; reflexivity.
Qed.

(** ** The batch *)

Lemma pick_partition {A} (flags : list bool) (l : list A) :
  List.length flags = List.length l ->
  List.length (pick true flags l) + List.length (pick false flags l)
  = List.length l.
Proof.
  revert l. induction flags as [|f flags IH]; intros [|x l] Hlen;
    try discriminate; [reflexivity |].
  cbn in Hlen. injection Hlen as Hlen. specialize (IH l Hlen).
  destruct f; cbn; lia.
Qed.

Lemma process_files_spec (items : list WorkItem) (acc : Outcome) (s : State) :
  exists s' out flags,
    process_files env items acc s = (s', Ok out) /\
    same_files s s' /\
    List.length flags = List.length items /\
    successfully_transcribed out
      = successfully_transcribed acc ++ map file_path (pick true flags items) /\
    errored out = errored acc ++ pick false flags items.
Proof.
  revert acc s. induction items as [|item rest IH]; intros acc s.
  - exists s, acc, []. cbn. rewrite !app_nil_r.
    repeat split.
  - destruct (process_item_spec item acc s) as (s1 & acc1 & Hitem & Hf1 & Hout).
    destruct (IH acc1 s1) as (s' & out & flags & Hrest & Hf & Hlen & Hs & He).
    cbn [process_files]. unfold bind. rewrite Hitem, Hrest.
    destruct Hout as [(Hs1 & He1 & _) | (Hs1 & He1 & _)].
    + exists s', out, (true :: flags). cbn.
      rewrite Hs, He, Hs1, He1, <- app_assoc.
      split; [reflexivity |].
      split; [eapply same_files_trans; eassumption |].
      split; [now rewrite Hlen |]. split; reflexivity.
    + exists s', out, (false :: flags). cbn.
      rewrite Hs, He, Hs1, He1, <- app_assoc.
      split; [reflexivity |].
      split; [eapply same_files_trans; eassumption |].
      split; [now rewrite Hlen |]. split; reflexivity.
Qed.

Lemma resolve_paths_spec (file_paths : list str) (acc : list WorkItem)
  (s : State) :
  exists s' items,
    resolve_paths env file_paths acc s = (s', Ok items) /\ same_files s s'.
Proof.
  revert acc s. induction file_paths as [|path rest IH]; intros acc s.
  - exists s, acc. split; [reflexivity | apply same_files_refl].
  - cbn [resolve_paths]. unfold bind at 1.
    match goal with
    | |- context [try_except ?c ?h s] =>
        assert (Hstep : exists s1 acc1,
                   try_except c h s = (s1, Ok acc1) /\ same_files s s1)
    end.
    { unfold try_except, bind, call.
      destruct (lookup_audio_file env path (world s)) as [w [[[d r]|]|e]];
        cbn; do 2 eexists; (split; [reflexivity | repeat split]). }
    destruct Hstep as (s1 & acc1 & -> & Hf1).
    destruct (IH acc1 s1) as (s' & items & -> & Hf).
    exists s', items. split; [reflexivity |].
    eapply same_files_trans; eassumption.
Qed.

Lemma resolve_spec (file_paths : list str) (audio_files : option (list AudioFile))
  (s : State) :
  exists s' items,
    resolve env file_paths audio_files s = (s', Ok items) /\ same_files s s'.
Proof.
  unfold resolve. destruct (optlist_truthy audio_files).
  - do 2 eexists. split; [reflexivity | apply same_files_refl].
  - apply resolve_paths_spec.
Qed.

Lemma transcribe_resolved_spec (request : Request) (file_paths : list str)
  (audio_files : option (list AudioFile)) (s : State) :
  file_paths <> [] ->
  exists s1 items s' out flags,
    resolve env file_paths audio_files
            (add_log INFO (Targets (List.length file_paths)) s)
      = (s1, Ok items) /\
    process_files env items no_outcome s1 = (s', Ok out) /\
    transcribe_resolved env request file_paths audio_files s
      = (s', Ok (final_response env request file_paths out)) /\
    same_files s s' /\
    List.length flags = List.length items /\
    successfully_transcribed out = map file_path (pick true flags items) /\
    errored out = pick false flags items.
Proof.
  intros Hne. unfold transcribe_resolved.
  destruct file_paths as [|p ps]; [contradiction |]. cbn [list_truthy negb].
  unfold bind at 1. unfold logger at 1.
  set (s0 := add_log _ _ s).
  destruct (resolve_spec (p :: ps) audio_files s0) as (s1 & items & Hres & Hf1).
  destruct (process_files_spec items no_outcome s1)
    as (s' & out & flags & Hproc & Hf & Hlen & Hs & He).
  exists s1, items, s', out, flags.
  unfold bind. rewrite Hres. fold no_outcome. rewrite Hproc.
  split; [reflexivity |]. split; [reflexivity |]. split; [reflexivity |].
  split.
  { eapply same_files_trans; [| exact Hf].
    eapply same_files_trans; [| exact Hf1]. repeat split. }
  split; [exact Hlen |]. split; [exact Hs | exact He].
Qed.

Lemma transcribe_resolved_total (request : Request) (file_paths : list str)
  (audio_files : option (list AudioFile)) (s : State) :
  exists s' resp,
    transcribe_resolved env request file_paths audio_files s = (s', Ok resp)
    /\ same_files s s' /\ status resp = lit "success".
Proof.
  destruct file_paths as [|p ps].
  - exists s, empty_old_response.
    split; [reflexivity |]. split; [apply same_files_refl | reflexivity].
  - destruct (@transcribe_resolved_spec request (p :: ps) audio_files s)
      as (s1 & items & s' & out & flags & _ & _ & H & Hf & _);
      [discriminate |].
    exists s', (final_response env request (p :: ps) out).
    split; [exact H |]. split; [exact Hf | reflexivity].
Qed.

(** [fetch_and_transcribe_files] raises only before any item is touched:
    when the request names neither selector, or when the catalog query of
    the newer interface raises. *)
Lemma fetch_and_transcribe_files_spec (request : Request) (s : State) :
  exists s' r,
    fetch_and_transcribe_files env request s = (s', r) /\
    same_files s s' /\
    match r with
    | Ok resp => status resp = lit "success"
    | Raise e =>
        (e = HTTPException 400 MissingSelector /\ trace s' = trace s) \/
        (exists cause tb,
            e = HTTPException 500 (DbQueryError cause) /\
            trace s' = trace s ++
              [CQueryAudioFiles (unwrap (req_device_id request))
                                (unwrap (req_local_date request)) tb])
    end.
Proof.
  unfold fetch_and_transcribe_files.
  destruct (is_new_interface request).
  - unfold bind at 1. unfold logger at 1.
    set (s0 := add_log _ _ s).
    unfold bind at 1. unfold try_except, bind, call, logger.
    unfold ret, raise.
    match goal with
    | |- context [query_audio_files env ?d ?ld ?tb (world s0)] =>
        destruct (query_audio_files env d ld tb (world s0)) as [w [afs|e]]
    end.
    + set (s1 := add_log _ _ _).
      destruct (map af_file_path afs) as [|p ps] eqn:Hfps; cbn [list_truthy negb].
      * do 2 eexists. split; [reflexivity |]. split; [repeat split | reflexivity].
      * destruct (transcribe_resolved_total request (p :: ps) (Some afs) s1)
          as (s' & resp & -> & Hf & Hst).
        exists s', (Ok resp). split; [reflexivity |].
        split; [| exact Hst].
        eapply same_files_trans; [| exact Hf]. repeat split.
    + do 2 eexists. split; [reflexivity |]. split; [repeat split |].
      right. do 2 eexists. split; reflexivity.
  - destruct (optlist_truthy (req_file_paths request)).
    + unfold bind at 1. unfold logger at 1.
      set (s0 := add_log _ _ s).
      match goal with
      | |- context [transcribe_resolved env request ?fps None s0] =>
          destruct (transcribe_resolved_total request fps None s0)
            as (s' & resp & -> & Hf & Hst)
      end.
      exists s', (Ok resp). split; [reflexivity |].
      split; [| exact Hst].
      eapply same_files_trans; [| exact Hf]. repeat split.
    + exists s, (Raise (HTTPException 400 MissingSelector)).
      split; [reflexivity |]. split; [apply same_files_refl |].
      left. split; reflexivity.
Qed.

(** On the path the background task takes, the pipeline never raises: a
    failure of the single item is caught inside it. *)
Lemma single_file_run_returns (path : str) (s : State) :
  exists s' resp,
    fetch_and_transcribe_files env (single_file_request path) s = (s', Ok resp)
    /\ same_files s s' /\ status resp = lit "success".
Proof.
  unfold fetch_and_transcribe_files. cbn [is_new_interface single_file_request
    req_device_id req_local_date req_file_paths opt_truthy andb optlist_truthy
    list_truthy].
  unfold bind at 1. unfold logger at 1.
  set (s0 := add_log _ _ s).
  destruct (transcribe_resolved_total (single_file_request path) [path] None s0)
    as (s' & resp & H & Hf & Hst).
  exists s', resp. split; [exact H |]. split; [| exact Hst].
  eapply same_files_trans; [| exact Hf]. repeat split.
Qed.

(** ** Status updates *)

Lemma update_status_spec (d r f v : str) (s : State) :
  exists s' res calls,
    update_status env d r f v s = (s', res) /\
    same_files s s' /\
    trace s' = trace s ++ calls /\ status_calls d r f v calls /\
    forall e, res = Raise e ->
              exists l, log s' = l ++ [(ERROR, StatusUpdateFailed e)].
Proof.
  unfold update_status, try_except, bind, call, logger, raise.
  destruct (update_spot env d r f v (world s)) as [w1 [[|row rows]|e]];
    cbn [list_truthy world set_world add_call].
  - destruct (insert_spot env d r f v w1) as [w2 [[]|e]]; cbn.
    + do 3 eexists. split; [reflexivity |]. split; [repeat split |].
      split; [cbn; rewrite <- app_assoc; reflexivity |].
      split; [right; reflexivity | discriminate].
    + do 3 eexists. split; [reflexivity |]. split; [repeat split |].
      split; [cbn; rewrite <- app_assoc; reflexivity |].
      split; [right; reflexivity |].
      intros e' [= <-]. eexists; reflexivity.
  - do 3 eexists. split; [reflexivity |]. split; [repeat split |].
    split; [reflexivity |]. split; [left; reflexivity | discriminate].
  - do 3 eexists. split; [reflexivity |]. split; [repeat split |].
    split; [reflexivity |]. split; [left; reflexivity |].
    intros e' [= <-]. eexists; reflexivity.
Qed.

(** ** Sequencing *)

Lemma bind_ok {A B} (c : M A) (k : A -> M B) s s' a :
  c s = (s', Ok a) -> bind c k s = k a s'.
Proof. intros H. unfold bind. rewrite H. reflexivity. Qed.

Lemma bind_raise {A B} (c : M A) (k : A -> M B) s s' e :
  c s = (s', Raise e) -> bind c k s = (s', Raise e).
Proof. intros H. unfold bind. rewrite H. reflexivity. Qed.

(** ** The queue *)

Lemma sqs_send_spec (ev : Event) (s : State) :
  exists s' r,
    sqs_send_message env ev s = (s', r) /\
    tmp_files s' = tmp_files s /\ tasks s' = tasks s /\
    ((r = Ok tt /\ queue s' = queue s ++ [ev]) \/
     (queue s' = queue s /\
      exists e, r = Raise e /\ snd (send_message env ev (world s)) = Raise e)).
Proof.
  unfold sqs_send_message, bind, call.
  destruct (send_message env ev (world s)) as [w [[]|e]]; cbn.
  - do 2 eexists. split; [reflexivity |]. cbn. repeat split. left. split; reflexivity.
  - do 2 eexists. split; [reflexivity |]. cbn. repeat split. right.
    split; [reflexivity |]. exists e. split; reflexivity.
Qed.

(** ** Classification and storing *)

Lemma same_but_log_refl (s : State) : same_but_log s s.
Proof. repeat split. Qed.

Lemma same_but_log_sym (s1 s2 : State) :
  same_but_log s1 s2 -> same_but_log s2 s1.
Proof. intros (? & ? & ? & ? & ?). repeat split; congruence. Qed.

Lemma same_but_log_trans (s1 s2 s3 : State) :
  same_but_log s1 s2 -> same_but_log s2 s3 -> same_but_log s1 s3.
Proof.
  intros (? & ? & ? & ? & ?) (? & ? & ? & ? & ?). repeat split; congruence.
Qed.

Lemma quota_check_spec (res : AsrResult) (t : str) (s : State) :
  exists s' b,
    quota_check env res t s = (s', Ok b) /\
    same_but_log s s' /\
    (b = true <-> quota_suspected res t (utc_now env (world s))) /\
    (b = false -> s' = s) /\
    (b = true ->
     log s' = log s ++
       [(WARNING, QuotaSuspected (jst_hour (utc_now env (world s)))
                                 (jst_minute (utc_now env (world s))));
        (WARNING, QuotaRetryAfterNine)]).
Proof.
  unfold quota_check, quota_suspected.
  destruct t as [|c t]; cbn [str_truthy negb andb].
  - destruct (no_speech_flag res); cbn [negb].
    + exists s, false. split; [reflexivity |].
      split; [apply same_but_log_refl |].
      split; [split; [discriminate | intros (_ & H & _); discriminate] |].
      split; [reflexivity | discriminate].
    + destruct (Z.ltb_spec (jst_hour (utc_now env (world s))) 9) as [Hlt | Hge].
      * eexists _, true. split; [reflexivity |].
        split; [repeat split |].
        split; [split; auto |].
        split; [discriminate |].
        intros _. cbn. rewrite <- app_assoc. reflexivity.
      * exists s, false. split; [reflexivity |].
        split; [apply same_but_log_refl |].
        split; [split; [discriminate | intros (_ & _ & H); lia] |].
        split; [reflexivity | discriminate].
  - exists s, false. split; [reflexivity |].
    split; [apply same_but_log_refl |].
    split; [split; [discriminate | intros (H & _); discriminate] |].
    split; [reflexivity | discriminate].
Qed.

Lemma fetch_local_spec (d r : str) (s : State) :
  exists s' local,
    fetch_local env d r s = (s', Ok local) /\
    trace s' = trace s ++ [CLookupLocal d r].
Proof.
  unfold fetch_local, try_except, bind, call, logger, ret.
  destruct (lookup_local env d r (world s)) as [w [[|row rows]|e]];
    do 2 eexists; split; reflexivity.
Qed.

(** The calls made while the ASR result of an item is stored: the lookup of
    the local date and time, then a complete run of upsert attempts, all for
    the payload built from the classified text. *)
Lemma store_transcription_calls (item : WorkItem) (res : AsrResult) (s : State) :
  exists local run s' r,
    store_transcription env item res s = (s', r) /\
    complete_run max_retries run = true /\
    trace s' = trace s ++
      CLookupLocal (device_id item) (recorded_at item)
      :: run_calls (build_data item local
                      (final_transcription (strip (transcription res))))
                   0 run.
Proof.
  unfold store_transcription.
  destruct (quota_check_spec res (strip (transcription res)) s)
    as (s1 & b & Hq & (_ & Htr1 & _) & _).
  destruct (fetch_local_spec (device_id item) (recorded_at item) s1)
    as (s2 & local & Hl & Htr2).
  set (data := build_data item local
                 (final_transcription (strip (transcription res)))).
  destruct (upsert_with_retry_spec data s2)
    as (run & s3 & r3 & Hu & Hc & Htr3 & _).
  exists local, run.
  rewrite (@bind_ok _ _ _ _ _ _ _ Hq), (@bind_ok _ _ _ _ _ _ _ Hl).
  fold data. unfold bind. rewrite Hu.
  destruct r3 as [[]|e]; cbn.
  - do 2 eexists. split; [reflexivity |]. split; [exact Hc |].
    cbn. rewrite Htr3, Htr2, Htr1, <- app_assoc. reflexivity.
  - do 2 eexists. split; [reflexivity |]. split; [exact Hc |].
    rewrite Htr3, Htr2, Htr1, <- app_assoc. reflexivity.
Qed.

(** ** The routes *)

Lemma async_process_spec (request : AsyncProcessRequest) (s : State) :
  exists s' calls,
    async_process env request s =
      (s', Ok {| acc_status := lit "accepted";
                 acc_message := lit "Processing started in background";
                 acc_device_id := a_device_id request;
                 acc_recorded_at := a_recorded_at request |}) /\
    tasks s' = tasks s ++
      [{| t_file_path := a_file_path request;
          t_device_id := a_device_id request;
          t_recorded_at := a_recorded_at request |}] /\
    tmp_files s' = tmp_files s /\ queue s' = queue s /\
    trace s' = trace s ++ calls /\
    status_calls (a_device_id request) (a_recorded_at request) vibe_status
                 (lit "processing") calls /\
    forall s0 s1 e,
      s0 = add_log INFO (AsyncStarting (a_device_id request)
                                       (a_recorded_at request)) s ->
      update_status env (a_device_id request) (a_recorded_at request)
                    vibe_status (lit "processing") s0 = (s1, Raise e) ->
      log s' = log s1 ++ [(ERROR, AsyncStatusFailed e)].
Proof.
  unfold async_process.
  unfold bind at 1. unfold logger at 1.
  set (s0 := add_log _ _ s).
  destruct (update_status_spec (a_device_id request) (a_recorded_at request)
              vibe_status (lit "processing") s0)
    as (s1 & res & calls & Hup & (Hf & Hq & Hk) & Htr & Hcalls & _).
  unfold bind, try_except. rewrite Hup.
  destruct res as [[]|e]; cbn.
  - do 2 eexists. split; [reflexivity |]. cbn.
    split; [rewrite Hk; reflexivity |].
    split; [exact Hf |]. split; [exact Hq |].
    split; [exact Htr |]. split; [exact Hcalls |].
    intros s0' s1' e' -> H.
    pose proof (eq_trans (eq_sym Hup) H) as X. discriminate X.
  - do 2 eexists. split; [reflexivity |]. cbn.
    split; [rewrite Hk; reflexivity |].
    split; [exact Hf |]. split; [exact Hq |].
    split; [exact Htr |]. split; [exact Hcalls |].
    intros s0' s1' e' -> H.
    pose proof (eq_trans (eq_sym Hup) H) as X.
    injection X as <- <-. reflexivity.
Qed.


(** ** The background task, case by case *)


Lemma upserted_status_calls (d r f v : str) (calls : list Call) :
  status_calls d r f v calls -> upserted calls = [].
Proof. intros [-> | ->]; reflexivity. Qed.

Lemma sqs_send_trace (ev : Event) (s : State) :
  trace (fst (sqs_send_message env ev s)) = trace s ++ [CSend ev].
Proof.
  unfold sqs_send_message, bind, call.
  destruct (send_message env ev (world s)) as [w [[]|e]]; reflexivity.
Qed.

(** The [except] clause of [process_in_background]: the event it sends, and
    the upserts it does not make. *)
Lemma failure_path_cases (d r : str) (e : Exn) (s : State) :
  exists s' res,
    (logger ERROR (BackgroundFailed d e) ;;
     try_except (update_status env d r vibe_status (lit "failed"))
                (fun _ => ret tt) ;;
     sqs_send_message env (failed_event d r e)) s = (s', res) /\
    tmp_files s' = tmp_files s /\ tasks s' = tasks s /\
    upserted (trace s') = upserted (trace s) /\
    ((res = Ok tt /\ queue s' = queue s ++ [failed_event d r e]) \/
     (queue s' = queue s /\
      exists e' w, res = Raise e' /\
                   snd (send_message env (failed_event d r e) w) = Raise e')).
Proof.
  unfold bind at 1. unfold logger at 1.
  set (s0 := add_log _ _ s).
  destruct (update_status_spec d r vibe_status (lit "failed") s0)
    as (s1 & res1 & calls & Hup & (Hf1 & Hq1 & Hk1) & Htr1 & Hcalls & _).
  assert (Htry : try_except (update_status env d r vibe_status (lit "failed"))
                            (fun _ => ret tt) s0 = (s1, Ok tt)).
  { unfold try_except. rewrite Hup. destruct res1 as [[]|e1]; reflexivity. }
  rewrite (@bind_ok _ _ _ _ _ _ _ Htry).
  pose proof (sqs_send_trace (failed_event d r e) s1) as Htr3.
  destruct (sqs_send_spec (failed_event d r e) s1)
    as (s3 & res3 & Hsend & Hf3 & Hk3 & Hres).
  rewrite Hsend in *. cbn [fst] in Htr3.
  exists s3, res3. split; [reflexivity |].
  split; [rewrite Hf3, Hf1; reflexivity |].
  split; [rewrite Hk3, Hk1; reflexivity |].
  split.
  { rewrite Htr3, Htr1, !upserted_app, (upserted_status_calls Hcalls).
    cbn. rewrite !app_nil_r. reflexivity. }
  destruct Hres as [[-> Hq3] | [Hq3 (e3 & -> & He3)]].
  - left. split; [reflexivity |]. rewrite Hq3, Hq1. reflexivity.
  - right. split; [rewrite Hq3, Hq1; reflexivity |].
    exists e3, (world s1). split; [reflexivity | exact He3].
Qed.

(** The background task: the pipeline returns a response; then either the
    update to "completed" and the send of the completed event return, and the
    completed event for that response is in the queue; or one of them raised,
    and the failed event carrying that exception is in the queue unless its
    own send raised.  The task makes no upsert after the pipeline. *)
Lemma background_cases (path d r : str) (s : State) :
  exists s1 resp s' res,
    fetch_and_transcribe_files env (single_file_request path)
      (add_log INFO (BackgroundStarted d) s) = (s1, Ok resp) /\
    process_in_background env path d r s = (s', res) /\
    queue s1 = queue s /\
    upserted (trace s') = upserted (trace s1) /\
    ((completion_returned env d r resp s1 /\ res = Ok tt /\
      queue s' = queue s ++ [completed_event d r resp]) \/
     (exists e,
         completion_raised env d r resp s1 e /\
         ((res = Ok tt /\ queue s' = queue s ++ [failed_event d r e]) \/
          (queue s' = queue s /\
           exists e' w,
             res = Raise e' /\
             snd (send_message env (failed_event d r e) w) = Raise e')))).
Proof.
  unfold process_in_background.
  unfold bind at 1. unfold logger at 1.
  set (s0 := add_log _ _ s).
  destruct (single_file_run_returns path s0)
    as (s1 & resp & Hrun & (Hf1 & Hq1 & Hk1) & _).
  change (queue s0) with (queue s) in Hq1.
  destruct (update_status_spec d r vibe_status (lit "completed") s1)
    as (s2 & res2 & calls & Hup & (Hf2 & Hq2 & Hk2) & Htr2 & Hcalls & _).
  assert (Hu2 : upserted (trace s2) = upserted (trace s1)).
  { rewrite Htr2, upserted_app, (upserted_status_calls Hcalls).
    apply app_nil_r. }
  exists s1, resp.
  destruct res2 as [[]|e2].
  - pose proof (sqs_send_trace (completed_event d r resp) s2) as Htr3.
    destruct (sqs_send_spec (completed_event d r resp) s2)
      as (s3 & res3 & Hsend & Hf3 & Hk3 & Hres3).
    rewrite Hsend in Htr3. cbn [fst] in Htr3.
    assert (Hu3 : upserted (trace s3) = upserted (trace s1)).
    { rewrite Htr3, upserted_app, Hu2. apply app_nil_r. }
    destruct Hres3 as [[-> Hq3] | [Hq3 (e3 & -> & He3)]].
    + eexists _, (Ok tt). split; [exact Hrun |]. split.
      { unfold try_except.
        rewrite (@bind_ok _ _ _ _ _ _ _ Hrun), (@bind_ok _ _ _ _ _ _ _ Hup),
          (@bind_ok _ _ _ _ _ _ _ Hsend). reflexivity. }
      split; [exact Hq1 |]. split; [exact Hu3 |].
      left. split; [exists s2, s3; split; [exact Hup | exact Hsend] |].
      split; [reflexivity |].
      cbn [queue add_log]. rewrite Hq3, Hq2, Hq1. reflexivity.
    + destruct (failure_path_cases d r e3 s3)
        as (s' & res & Hrun' & _ & _ & Hu' & Hres').
      exists s', res. split; [exact Hrun |]. split.
      { unfold try_except.
        rewrite (@bind_ok _ _ _ _ _ _ _ Hrun), (@bind_ok _ _ _ _ _ _ _ Hup),
          (@bind_raise _ _ _ _ _ _ _ Hsend).
        exact Hrun'. }
      split; [exact Hq1 |]. split; [rewrite Hu'; exact Hu3 |].
      right. exists e3.
      split; [right; exists s2, s3; split; [exact Hup | exact Hsend] |].
      rewrite Hq3, Hq2, Hq1 in Hres'. exact Hres'.
  - destruct (failure_path_cases d r e2 s2)
      as (s' & res & Hrun' & _ & _ & Hu' & Hres').
    exists s', res. split; [exact Hrun |]. split.
    { unfold try_except.
      rewrite (@bind_ok _ _ _ _ _ _ _ Hrun), (@bind_raise _ _ _ _ _ _ _ Hup).
      exact Hrun'. }
    split; [exact Hq1 |]. split; [rewrite Hu'; exact Hu2 |].
    right. exists e2.
    split; [left; exists s2; exact Hup |].
    rewrite Hq2, Hq1 in Hres'. exact Hres'.
Qed.

End Properties.

(** ** The clock and the no-speech flag only reach the log *)

Section Clock.

Variable W : Type.
Variable env : Env W.
Variable clk : W -> Z.

Local Abbreviation M := (M W).
Local Abbreviation State := (State W).
Local Abbreviation env' := (with_clock env clk).

Lemma blind_ret {A} (a : A) : @blind W A (ret a) (ret a).
Proof. intros s1 s2 H. split; [exact H | reflexivity]. Qed.

Lemma blind_logger l1 m1 l2 m2 :
  @blind W unit (logger l1 m1) (logger l2 m2).
Proof. intros s1 s2 H. split; [exact H | reflexivity]. Qed.

Lemma blind_call {A} c (h : W -> W * result A) : blind (call c h) (call c h).
Proof.
  intros s1 s2 (Hw & Ht & Hf & Hq & Hk). unfold call. rewrite Hw.
  destruct (h (world s2)) as [w r]. cbn.
  split; [repeat split; cbn; congruence | reflexivity].
Qed.

Lemma blind_bind {A B} (c1 c2 : M A) (k1 k2 : A -> M B) :
  blind c1 c2 -> (forall a, blind (k1 a) (k2 a)) ->
  blind (bind c1 k1) (bind c2 k2).
Proof.
  intros Hc Hk s1 s2 H. unfold bind. destruct (Hc s1 s2 H) as [Hs Hr].
  destruct (c1 s1) as [s1' r1], (c2 s2) as [s2' r2]. cbn in Hs, Hr. subst r2.
  destruct r1 as [a|e]; [apply Hk; exact Hs |].
  split; [exact Hs | reflexivity].
Qed.

Lemma blind_try_except {A} (c1 c2 : M A) (h1 h2 : Exn -> M A) :
  blind c1 c2 -> (forall e, blind (h1 e) (h2 e)) ->
  blind (try_except c1 h1) (try_except c2 h2).
Proof.
  intros Hc Hh s1 s2 H. unfold try_except. destruct (Hc s1 s2 H) as [Hs Hr].
  destruct (c1 s1) as [s1' r1], (c2 s2) as [s2' r2]. cbn in Hs, Hr. subst r2.
  destruct r1 as [a|e]; [| apply Hh; exact Hs].
  split; [exact Hs | reflexivity].
Qed.

Lemma blind_fetch_local d r : blind (fetch_local env d r) (fetch_local env' d r).
Proof.
  change (fetch_local env' d r) with (fetch_local env d r).
  unfold fetch_local.
  apply blind_try_except.
  - apply blind_bind; [apply blind_call | intros rows].
    destruct rows as [|row rows].
    + apply blind_bind; [apply blind_logger | intros ?; apply blind_ret].
    + apply blind_bind; [apply blind_logger | intros ?].
      apply blind_bind; [apply blind_logger | intros ?; apply blind_ret].
  - intros e. apply blind_bind; [apply blind_logger | intros ?; apply blind_ret].
Qed.

Lemma blind_upsert_turn data rc :
  blind (upsert_turn env data rc) (upsert_turn env' data rc).
Proof.
  intros [w1 t1 l1 f1 q1 k1] [w2 t2 l2 f2 q2 k2] (Hw & Ht & Hf & Hq & Hk).
  cbn in Hw, Ht, Hf, Hq, Hk. subst.
  unfold upsert_turn, upsert_try, call_rows.
  cbn [with_clock upsert select_spot sleep].
  destruct rc as [|rc]; cbn [Nat.ltb Nat.leb world set_world add_call add_log].
  all: repeat match goal with
         | |- context [upsert env ?d ?w] =>
             destruct (upsert env d w) as [? [[|? ?]|?]];
             cbn [list_truthy negb world set_world add_call add_log answer_of]
         | |- context [select_spot env ?d ?r ?w] =>
             destruct (select_spot env d r w) as [? [[|? ?]|?]];
             cbn [list_truthy negb world set_world add_call add_log answer_of]
         | |- context [if ?b then _ else _] => destruct b
         end.
  all: cbn; split; [repeat split | reflexivity].
Qed.

Lemma blind_upsert_loop data n rc :
  rc + n = max_retries ->
  blind (upsert_loop env data rc false) (upsert_loop env' data rc false).
Proof.
  revert rc. induction n as [|n IH]; intros rc Hn s1 s2 H.
  - rewrite !upsert_loop_step.
    replace (rc <? max_retries) with false
      by (symmetry; apply Nat.ltb_ge; lia).
    split; [exact H | reflexivity].
  - assert (Hrc : rc < max_retries) by lia.
    rewrite !upsert_loop_step.
    replace (rc <? max_retries) with true by (symmetry; now apply Nat.ltb_lt).
    cbn [andb negb].
    destruct (blind_upsert_turn data rc H) as [Hs Hr].
    destruct (@upsert_turn_spec W env data rc s1 Hrc)
      as (a & s1' & r1 & Hturn & _ & _ & Hres).
    rewrite Hturn in Hs, Hr |- *.
    destruct (upsert_turn env' data rc s2) as [s2' r2].
    cbn in Hs, Hr. subst r2.
    destruct Hres as [[_ ->] | [_ [[Hlt ->] | [_ [e ->]]]]].
    + rewrite !upsert_loop_done. split; [exact Hs | reflexivity].
    + apply IH; [lia | exact Hs].
    + split; [exact Hs | reflexivity].
Qed.

Lemma blind_store_transcription item res flag :
  blind (store_transcription env item res)
        (store_transcription env' item
           {| transcription := transcription res;
              no_speech_detected := flag |}).
Proof.
  intros s1 s2 H. unfold store_transcription. cbn [transcription].
  set (t := strip (transcription res)).
  destruct (@quota_check_spec W env res t s1) as (s1' & b1 & Hq1 & Hl1 & _).
  destruct (@quota_check_spec W env'
              {| transcription := transcription res;
                 no_speech_detected := flag |} t s2)
    as (s2' & b2 & Hq2 & Hl2 & _).
  rewrite (@bind_ok _ _ _ _ _ _ _ _ Hq1), (@bind_ok _ _ _ _ _ _ _ _ Hq2).
  assert (H' : same_but_log s1' s2').
  { eapply same_but_log_trans; [apply same_but_log_sym; exact Hl1 |].
    eapply same_but_log_trans; [exact H | exact Hl2]. }
  revert s1' s2' H' Hq1 Hq2 Hl1 Hl2. intros s1' s2' H' _ _ _ _.
  revert s1' s2' H'.
  change (blind
    (local <- fetch_local env (device_id item) (recorded_at item) ;;
     upsert_with_retry env
       (build_data item local (final_transcription t)) ;;
     logger INFO (if str_truthy t
                  then Transcribed (file_path item) (List.length t)
                  else TranscribedNoSpeech (file_path item)))
    (local <- fetch_local env' (device_id item) (recorded_at item) ;;
     upsert_with_retry env'
       (build_data item local (final_transcription t)) ;;
     logger INFO (if str_truthy t
                  then Transcribed (file_path item) (List.length t)
                  else TranscribedNoSpeech (file_path item)))).
  apply blind_bind; [apply blind_fetch_local | intros local].
  apply blind_bind; [| intros ?; apply blind_logger].
  unfold upsert_with_retry. apply (@blind_upsert_loop _ max_retries 0).
  reflexivity.
Qed.

Lemma blind_try_finally {A} (c1 c2 : M A) (f1 f2 : M unit) :
  blind c1 c2 -> blind f1 f2 ->
  blind (try_finally c1 f1) (try_finally c2 f2).
Proof.
  intros Hc Hf s1 s2 H. unfold try_finally. destruct (Hc s1 s2 H) as [Hs Hr].
  destruct (c1 s1) as [s1' r1], (c2 s2) as [s2' r2]. cbn in Hs, Hr. subst r2.
  destruct (Hf s1' s2' Hs) as [Hs' Hr'].
  destruct (f1 s1') as [s1'' u1], (f2 s2') as [s2'' u2]. cbn in Hs', Hr'.
  subst u2. destruct u1; split; auto.
Qed.

Lemma blind_unlink (tmp : N) :
  @blind W unit (unlink_if_exists tmp) (unlink_if_exists tmp).
Proof.
  intros s1 s2 (Hw & Ht & Hf & Hq & Hk). unfold unlink_if_exists.
  rewrite Hf. destruct (existsb (N.eqb tmp) (tmp_files s2)); cbn.
  - split; [repeat split; cbn; congruence | reflexivity].
  - split; [repeat split; congruence | reflexivity].
Qed.

Lemma blind_NamedTemporaryFile :
  blind (NamedTemporaryFile env) (NamedTemporaryFile env').
Proof.
  change (NamedTemporaryFile env') with (NamedTemporaryFile env).
  unfold NamedTemporaryFile.
  apply blind_bind; [apply blind_call | intros _].
  intros s1 s2 (Hw & Ht & Hf & Hq & Hk). cbn. rewrite Hf.
  split; [repeat split; cbn; congruence | reflexivity].
Qed.

Lemma blind_transcribe_item item :
  blind (transcribe_item env item) (transcribe_item env' item).
Proof.
  unfold transcribe_item.
  apply blind_bind; [apply blind_NamedTemporaryFile | intros tmp].
  apply blind_try_finally; [| apply blind_unlink].
  cbn [with_clock s3_bucket_name download_file transcribe_audio].
  apply blind_bind; [apply blind_call | intros _].
  apply blind_bind; [apply blind_call | intros [text flag]].
  apply (blind_store_transcription item
           {| transcription := text; no_speech_detected := flag |} flag).
Qed.

End Clock.

(** * The claims *)

Section Claims.

Variable W : Type.
Variable env : Env W.

Local Abbreviation M := (M W).
Local Abbreviation State := (State W).


(** C3, as amended.  A call of the upsert makes between one and three
    attempts, all with the same payload; it waits one second before the
    second attempt and two seconds before the third; an attempt answered
    without data is followed by a read at the payload's key, and a row found
    there makes the attempt a success; the upsert returns normally exactly
    when one attempt succeeded, and raises exactly when three attempts
    failed. *)
Theorem upsert_retry_policy (data : Payload) (s : State) :
  exists run s' r,
    upsert_with_retry env data s = (s', r) /\
    trace s' = trace s ++ run_calls data 0 run /\
    complete_run max_retries run = true /\
    1 <= List.length run <= 3 /\
    filter is_sleep (run_calls data 0 run)
      = map CSleep (seq 1 (List.length run - 1)) /\
    upserted (run_calls data 0 run) = repeat data (List.length run) /\
    (r = Ok tt <-> existsb succeeded run = true) /\
    ((exists e, r = Raise e)
     <-> (List.length run = 3 /\ existsb succeeded run = false)).
Proof.
  destruct (upsert_with_retry_spec env data s)
    as (run & s' & r & Hrun & Hc & Htr & _ & Hok & Hko).
  exists run, s', r.
  split; [exact Hrun |]. split; [exact Htr |]. split; [exact Hc |].
  split; [apply (complete_run_length _ _ Hc) |].
  split; [apply sleeps_run |].
  split; [apply upserted_run |].
  destruct (existsb succeeded run) eqn:Hany.
  - rewrite (Hok eq_refl). split.
    + split; reflexivity.
    + split; [intros [e He]; discriminate He | intros [_ H]; discriminate H].
  - destruct (Hko eq_refl) as [Hlen [e ->]]. split.
    + split; discriminate.
    + split; [intros _; split; [exact Hlen | reflexivity] |].
      intros _. exists e. reflexivity.
Qed.

(** C4.  In a batch every resolved work item ends in exactly one of the two
    result lists (each item carries one flag: [true] puts it in
    [successfully_transcribed], [false] in [error_files]); an item that fails
    does not stop the loop, which goes on with the rest; and the counts the
    response reports add up to the number of resolved items. *)
Theorem batch_accounting (request : Request) (file_paths : list str)
  (audio_files : option (list AudioFile)) (s : State) :
  list_truthy file_paths = true ->
  exists s1 items s' out flags,
    resolve env file_paths audio_files
            (add_log INFO (Targets (List.length file_paths)) s)
      = (s1, Ok items) /\
    transcribe_resolved env request file_paths audio_files s
      = (s', Ok (final_response env request file_paths out)) /\
    List.length flags = List.length items /\
    successfully_transcribed out = map file_path (pick true flags items) /\
    errored out = pick false flags items /\
    pending_processed (summary (final_response env request file_paths out))
      + errors (summary (final_response env request file_paths out))
      = List.length items /\
    (forall item rest acc s0,
        exists s1' acc1,
          process_item env item acc s0 = (s1', Ok acc1) /\
          process_files env (item :: rest) acc s0
            = process_files env rest acc1 s1').
Proof.
  intros Hne.
  assert (Hne' : file_paths <> []) by (intros ->; discriminate Hne).
  destruct (transcribe_resolved_spec env request audio_files s Hne')
    as (s1 & items & s' & out & flags & Hres & _ & Hrun & _ & Hlen & Hs & He).
  exists s1, items, s', out, flags.
  split; [exact Hres |]. split; [exact Hrun |]. split; [exact Hlen |].
  split; [exact Hs |]. split; [exact He |].
  split.
  - cbn. rewrite Hs, He, length_map. apply pick_partition. exact Hlen.
  - intros item rest acc s0.
    destruct (process_item_spec env item acc s0) as (s1' & acc1 & Hitem & _).
    exists s1', acc1. split; [exact Hitem |].
    cbn [process_files]. unfold bind. rewrite Hitem. reflexivity.
Qed.

(** C5, as amended.  A request accepted by the async endpoint schedules
    one task and publishes nothing; the run of that task adds at most one
    event to the queue, whatever the pipeline and the status updates did:
    either the task returns and one event for the item, completed or failed,
    carrying the request's device and timestamp, was added, or the send of
    the failed event raised, the task raises that exception and the queue is
    as it was.  When the queue accepts what it is sent, exactly one event is
    added. *)
Theorem one_terminal_event_unless_send_raises
  (request : AsyncProcessRequest) (s : State) :
  exists s1 ack t s2 res,
    post_async_process env request s = (s1, HttpReturn 202 ack) /\
    tasks s1 = tasks s ++ [t] /\ queue s1 = queue s /\
    run_task env t s1 = (s2, res) /\
    ((res = Ok tt /\
      exists ev,
        queue s2 = queue s ++ [ev] /\
        ev_device_id ev = a_device_id request /\
        ev_recorded_at ev = a_recorded_at request /\
        ev_feature_type ev = FEATURE_TYPE /\
        (ev_status ev = lit "completed" \/ ev_status ev = lit "failed")) \/
     (queue s2 = queue s /\
      exists e cause w,
        res = Raise e /\
        snd (send_message env
               (failed_event (a_device_id request) (a_recorded_at request)
                             cause) w) = Raise e)) /\
    (queue_accepts env ->
     res = Ok tt /\ exists ev, queue s2 = queue s ++ [ev]).
Proof.
  destruct (async_process_spec env request s)
    as (s1 & calls & Hacc & Htasks & _ & Hq1 & _).
  set (t := {| t_file_path := a_file_path request;
               t_device_id := a_device_id request;
               t_recorded_at := a_recorded_at request |}) in *.
  destruct (background_cases env (t_file_path t) (t_device_id t)
              (t_recorded_at t) s1)
    as (s0 & resp & s2 & res & _ & Hrun & _ & _ & Hcases).
  cbn [t t_device_id t_recorded_at] in Hcases.
  eexists s1, _, t, s2, res.
  split; [unfold post_async_process, serve; rewrite Hacc; reflexivity |].
  split; [exact Htasks |]. split; [exact Hq1 |]. split; [exact Hrun |].
  rewrite Hq1 in Hcases.
  destruct Hcases as [(_ & -> & Hq) | (e & _ & [[-> Hq] | [Hq Hraised]])].
  - split.
    + left. split; [reflexivity |].
      eexists. split; [exact Hq |]. repeat split. left. reflexivity.
    + intros _. split; [reflexivity |]. eexists. exact Hq.
  - split.
    + left. split; [reflexivity |].
      eexists. split; [exact Hq |]. repeat split. right. reflexivity.
    + intros _. split; [reflexivity |]. eexists. exact Hq.
  - destruct Hraised as (e' & w & Hres & Hsend). split.
    + right. split; [exact Hq |]. exists e', e, w.
      split; [exact Hres | exact Hsend].
    + intros Hacc'. rewrite (Hacc' _ w) in Hsend. discriminate Hsend.
Qed.

(** C6, as amended.  The text handed to the upsert is the ASR text with
    leading and trailing whitespace stripped when that is not empty, and the
    fixed no-speech literal when it is empty, whatever the no-speech flag of
    the ASR result; the stored text is never the empty string, and being a
    string it is never an unset field. *)
Theorem stored_text_classification (item : WorkItem) (res : AsrResult)
  (s : State) :
  exists local (run : list Attempt) s' r calls,
    store_transcription env item res s = (s', r) /\
    trace s' = trace s ++ calls /\
    1 <= List.length run <= 3 /\
    upserted calls
      = repeat (build_data item local
                  (final_transcription (strip (transcription res))))
               (List.length run) /\
    final_transcription (strip (transcription res))
      = match strip (transcription res) with
        | [] => NO_SPEECH
        | c :: t => c :: t
        end /\
    final_transcription (strip (transcription res)) <> [] /\
    Some (final_transcription (strip (transcription res))) <> None.
Proof.
  destruct (store_transcription_calls env item res s)
    as (local & run & s' & r & Hrun & Hc & Htr).
  exists local, run, s', r. eexists.
  split; [exact Hrun |]. split; [exact Htr |].
  split; [apply (complete_run_length _ _ Hc) |].
  split; [cbn [upserted]; apply upserted_run |].
  unfold final_transcription.
  destruct (strip (transcription res)) as [|c t]; cbn.
  - split; [reflexivity |]. split; discriminate.
  - split; [reflexivity |]. split; discriminate.
Qed.

(** C7.  The quota heuristic fires exactly when the text the code tests (the
    stripped ASR text) is empty, the no-speech flag is not set and the hour
    in Asia/Tokyo is before nine; it only writes to the log.  Storing the
    same text at another clock reading and with another no-speech flag ends
    in the same result and in a state that differs in the log at most: the
    same calls were made, so the same text was handed to the upsert.  The
    same holds for the whole processing of an item at two clock readings. *)
Theorem quota_heuristic_only_logs (clk : W -> Z) (flag : option bool)
  (item : WorkItem) (res : AsrResult) (s : State) :
  let res' := {| transcription := transcription res;
                 no_speech_detected := flag |} in
  let run1 := store_transcription env item res s in
  let run2 := store_transcription (with_clock env clk) item res' s in
  same_but_log (fst run1) (fst run2) /\
  snd run1 = snd run2 /\
  upserted (trace (fst run1)) = upserted (trace (fst run2)) /\
  same_but_log (fst (transcribe_item env item s))
               (fst (transcribe_item (with_clock env clk) item s)) /\
  snd (transcribe_item env item s)
    = snd (transcribe_item (with_clock env clk) item s) /\
  (exists s' fired,
      quota_check env res (strip (transcription res)) s = (s', Ok fired) /\
      same_but_log s s' /\
      (fired = true <->
       quota_suspected res (strip (transcription res))
                       (utc_now env (world s)))).
Proof.
  intros res' run1 run2.
  destruct (@blind_store_transcription W env clk item res flag s s
              (same_but_log_refl s)) as [Hs Hr].
  fold res' in Hs, Hr. fold run1 run2 in Hs, Hr.
  split; [exact Hs |]. split; [exact Hr |].
  split; [destruct Hs as (_ & -> & _); reflexivity |].
  destruct (@blind_transcribe_item W env clk item s s (same_but_log_refl s))
    as [Hs' Hr'].
  split; [exact Hs' |]. split; [exact Hr' |].
  destruct (quota_check_spec env res (strip (transcription res)) s)
    as (s' & b & Hq & Hl & Hiff & _).
  exists s', b. split; [exact Hq |]. split; [exact Hl | exact Hiff].
Qed.

(** C8.  The temporary file of a work item is deleted on every way out of
    the item's processing, so the temporary files that exist after an item,
    and after a whole batch, are those that existed before. *)
Theorem scratch_released (item : WorkItem) (request : Request) (s : State) :
  tmp_files (fst (transcribe_item env item s)) = tmp_files s /\
  tmp_files (fst (fetch_and_transcribe_files env request s)) = tmp_files s.
Proof.
  split.
  - apply (transcribe_item_files env item s).
  - destruct (fetch_and_transcribe_files_spec env request s)
      as (s' & r & -> & (Hf & _) & _).
    exact Hf.
Qed.


(** C10.  The async endpoint answers 202 with the acknowledgment
    (status "accepted", the request's device and timestamp) and schedules
    the background task also when the update of the status to "processing"
    raises: the exception is caught and logged, and the client never sees
    it. *)
Theorem accepted_despite_status_failure (request : AsyncProcessRequest)
  (s : State) :
  exists s',
    post_async_process env request s =
      (s', HttpReturn 202
             {| acc_status := lit "accepted";
                acc_message := lit "Processing started in background";
                acc_device_id := a_device_id request;
                acc_recorded_at := a_recorded_at request |}) /\
    tasks s' = tasks s ++
      [{| t_file_path := a_file_path request;
          t_device_id := a_device_id request;
          t_recorded_at := a_recorded_at request |}] /\
    match update_status env (a_device_id request) (a_recorded_at request)
            vibe_status (lit "processing")
            (add_log INFO (AsyncStarting (a_device_id request)
                                         (a_recorded_at request)) s) with
    | (s1, Raise e) => log s' = log s1 ++ [(ERROR, AsyncStatusFailed e)]
    | (s1, Ok _) => log s' = log s1
    end.
Proof.
  destruct (async_process_spec env request s)
    as (s' & calls & Hacc & Htasks & _ & _ & _ & _ & Hlog).
  exists s'.
  split; [unfold post_async_process, serve; rewrite Hacc; reflexivity |].
  split; [exact Htasks |].
  destruct (update_status env (a_device_id request) (a_recorded_at request)
              vibe_status (lit "processing")
              (add_log INFO (AsyncStarting (a_device_id request)
                                           (a_recorded_at request)) s))
    as [s1 [[]|e]] eqn:Hup.
  - revert Hacc. unfold async_process, bind, try_except, logger.
    cbn [fst snd]. unfold logger in Hup.
    rewrite Hup. intros [= <-]. reflexivity.
  - apply (Hlog _ s1 e eq_refl). exact Hup.
Qed.

End Claims.

(** * Runs on the double *)

(** Scenario B: [a.wav] resolves and the ASR hears "hello". *)
Example scenario_hello :
  let e := Double.env (Double.healthy (lit "hello")) in
  let '(s', r) := fetch_and_transcribe_files e
                    (single_file_request Double.x_path) (Double.start 0 []) in
  match r with
  | Ok body =>
      summary body = {| total_files := 1; already_completed := None;
                        pending_processed := 1; errors := 0 |}
  | Raise _ => False
  end /\
  map r_vibe_transcriber_result (Double.spot_features (world s'))
    = [Some (lit "hello")].
Proof. vm_compute. split; reflexivity. Qed.

(** Scenario C: the first upsert is acknowledged without data, the read at
    the key finds the row, and the item counts as processed. *)
Example scenario_reconciled :
  let e := Double.env Double.first_unconfirmed in
  let '(s', r) := fetch_and_transcribe_files e
                    (single_file_request Double.x_path) (Double.start 0 []) in
  match r with
  | Ok body => processed_files body = Some [Double.x_path]
               /\ error_files body = None
  | Raise _ => False
  end /\
  filter is_upsert (trace s')
    = [CUpsert (Double.x_payload (lit "hello")) WithoutData].
Proof. vm_compute. repeat split. Qed.

(** Every item of a batch fails and the endpoint still answers 200 with
    status "success". *)
Example all_items_failed_still_success :
  let e := Double.env Double.asr_raises in
  match snd (post_fetch_and_transcribe e (single_file_request Double.x_path)
                                       (Double.start 0 [])) with
  | HttpReturn code body =>
      code = 200 /\ status body = lit "success" /\
      errors (summary body) = 1 /\ pending_processed (summary body) = 0 /\
      error_files body = Some [Double.x_path]
  | HttpFailure _ => False
  end.
Proof. vm_compute. repeat split. Qed.

(** C1: the code at the failing input.  The request for [x.wav] is accepted
    and its task is run while the ASR call raises: the item's failure is
    logged by the pipeline, and then the status is set to "completed" and
    the one event published says "completed" with no processed file. *)
Theorem asr_failure_reported_completed :
  let s' := Double.accept_and_run Double.asr_raises Double.x_request
                                  (Double.start 0 []) in
  Double.error_log (log s')
    = [ItemError Double.x_path (Exception (lit "ASR provider error"))] /\
  map r_vibe_status (Double.spot_features (world s'))
    = [Some (lit "completed")] /\
  queue s'
    = [{| ev_device_id := lit "d2";
          ev_recorded_at := lit "2024-01-01T00:00:00Z";
          ev_feature_type := lit "vibe";
          ev_status := lit "completed";
          ev_processed_files := Some [];
          ev_error := None |}].
Proof. vm_compute. repeat split. Qed.


(** C3 as stated fails: in the run with the most attempts, three, the waits
    are of one and of two seconds; there is no wait of three seconds. *)
Lemma third_wait_never_happens :
  let run := upsert_with_retry (Double.env Double.never_confirmed)
               (Double.x_payload (lit "hello")) (Double.start 0 []) in
  filter is_sleep (trace (fst run)) = [CSleep 1; CSleep 2] /\
  List.length (upserted (trace (fst run))) = 3 /\
  snd run = Raise (Exception (lit "Supabase upsert failed after 3 attempts")).
Proof. vm_compute. repeat split. Qed.

(** C4 at a batch of one file. *)
Lemma batch_accounting_witness :
  let e := Double.env (Double.healthy (lit "hello")) in
  let request := single_file_request Double.x_path in
  let s := Double.start 0 [] in
  list_truthy [Double.x_path] = true /\
  exists s1 items s' out flags,
    resolve e [Double.x_path] None
            (add_log INFO (Targets (List.length [Double.x_path])) s)
      = (s1, Ok items) /\
    transcribe_resolved e request [Double.x_path] None s
      = (s', Ok (final_response e request [Double.x_path] out)) /\
    List.length flags = List.length items /\
    successfully_transcribed out = map file_path (pick true flags items) /\
    errored out = pick false flags items /\
    pending_processed (summary (final_response e request [Double.x_path] out))
      + errors (summary (final_response e request [Double.x_path] out))
      = List.length items /\
    (forall item rest acc s0,
        exists s1' acc1,
          process_item e item acc s0 = (s1', Ok acc1) /\
          process_files e (item :: rest) acc s0
            = process_files e rest acc1 s1').
Proof.
  cbv zeta. split; [reflexivity |].
  apply (@batch_accounting Double.World
           (Double.env (Double.healthy (lit "hello")))
           (single_file_request Double.x_path) [Double.x_path] None
           (Double.start 0 [])).
  reflexivity.
Defined.

(** C5 as stated fails: the queue refuses every message.  The request for
    [x.wav] is accepted and its task is run; the transcript is stored, the
    task tries to send the completed event and then the failed one, both
    sends raise, and no event was published. *)
Lemma no_event_when_queue_refuses :
  let e := Double.env Double.queue_down in
  let s := Double.start 0 [] in
  let s' := Double.accept_and_run Double.queue_down Double.x_request s in
  http_code (snd (post_async_process e Double.x_request s)) = 202 /\
  List.length (tasks (fst (post_async_process e Double.x_request s))) = 1 /\
  map r_vibe_transcriber_result (Double.spot_features (world s'))
    = [Some (lit "hello")] /\
  filter (fun c => match c with CSend _ => true | _ => false end) (trace s')
    = [CSend (completed_event (lit "d2") (lit "2024-01-01T00:00:00Z")
                (final_response e (single_file_request Double.x_path)
                   [Double.x_path]
                   {| successfully_transcribed := [Double.x_path];
                      errored := [] |}));
       CSend (failed_event (lit "d2") (lit "2024-01-01T00:00:00Z")
                           Double.down)] /\
  queue s' = [].
Proof. vm_compute. repeat split. Qed.

(** C6 as stated fails: the ASR text " hello" is not empty, and what is
    stored is "hello", not that text. *)
Lemma padded_text_not_stored_verbatim :
  let text := lit " hello" in
  let s' := fst (transcribe_item (Double.env (Double.healthy text))
                   Double.x_item (Double.start 0 [])) in
  text <> [] /\
  upserted (trace s') = [Double.x_payload (lit "hello")] /\
  map r_vibe_transcriber_result (Double.spot_features (world s'))
    = [Some (lit "hello")] /\
  lit "hello" <> text.
Proof.
  cbv zeta. split; [discriminate |].
  split; [vm_compute; reflexivity |].
  split; [vm_compute; reflexivity | discriminate].
Qed.

(** * Further properties *)

Section Batches.

Variable W : Type.
Variable env : Env W.

Local Abbreviation M := (M W).
Local Abbreviation State := (State W).

(** ** The fate of each requested path *)

Lemma pick_map {A B} (f : A -> B) (b : bool) (flags : list bool) (l : list A) :
  map f (pick b flags l) = pick b flags (map f l).
Proof.
  revert l. induction flags as [|x flags IH]; intros [|a l]; try reflexivity.
  cbn. destruct (Bool.eqb x b); cbn; rewrite IH; reflexivity.
Qed.

Lemma pick_all {A} (l : list A) :
  pick true (repeat true (List.length l)) l = l.
Proof. induction l as [|a l IH]; [reflexivity |]. cbn. now rewrite IH. Qed.

Lemma pick_length_le {A} (b : bool) (flags : list bool) (l : list A) :
  List.length (pick b flags l) <= List.length l.
Proof.
  revert l. induction flags as [|x flags IH]; intros [|a l]; cbn; try lia.
  specialize (IH l). destruct (Bool.eqb x b); cbn; lia.
Qed.

Lemma fates_length (resolved outcome : list bool) :
  List.length (fates resolved outcome) = List.length resolved.
Proof.
  revert outcome. induction resolved as [|r rs IH]; intros outcome;
    [reflexivity |].
  destruct r; [destruct outcome as [|[] os] |]; cbn; now rewrite IH.
Qed.

Lemma pick_fates {A} (resolved outcome : list bool) (l : list A) :
  List.length outcome = List.length (pick true resolved l) ->
  pick true outcome (pick true resolved l)
    = pick_by is_processed (fates resolved outcome) l /\
  pick false outcome (pick true resolved l)
    = pick_by is_errored (fates resolved outcome) l.
Proof.
  revert outcome l. induction resolved as [|r rs IH]; intros outcome l Hlen.
  - cbn in *. destruct outcome; [split; reflexivity | discriminate].
  - destruct l as [|a l].
    + cbn in Hlen. destruct outcome; [| discriminate].
      destruct r; split; reflexivity.
    + destruct r; cbn in Hlen |- *.
      * destruct outcome as [|o os]; [discriminate |].
        injection Hlen as Hlen. destruct (IH os l Hlen) as [H1 H2].
        destruct o; cbn; rewrite H1, H2; split; reflexivity.
      * apply IH. exact Hlen.
Qed.

Lemma fates_all_resolved (n : nat) (outcome : list bool) :
  List.length outcome = n ->
  existsb is_unresolved (fates (repeat true n) outcome) = false.
Proof.
  revert outcome. induction n as [|n IH]; intros outcome Hlen; [reflexivity |].
  destruct outcome as [|o os]; [discriminate |]. injection Hlen as Hlen.
  cbn. destruct o; cbn; apply IH; exact Hlen.
Qed.

Lemma catalog_answers_length (file_paths : list str) (w : W) :
  List.length (catalog_answers env file_paths w) = List.length file_paths.
Proof.
  revert w. induction file_paths as [|path rest IH]; intros w; [reflexivity |].
  cbn [catalog_answers].
  destruct (lookup_audio_file env path w) as [w' [[dr|]|e]]; cbn;
    now rewrite IH.
Qed.

Lemma fates_unresolved {A} (resolved outcome : list bool) (l : list A) :
  List.length resolved = List.length l ->
  List.length outcome = List.length (pick true resolved l) ->
  map is_unresolved (fates resolved outcome) = map negb resolved.
Proof.
  revert outcome l. induction resolved as [|r rs IH]; intros outcome l Hl Hlen;
    [reflexivity |].
  destruct l as [|a l]; [discriminate |]. injection Hl as Hl.
  destruct r; cbn in Hlen |- *.
  - destruct outcome as [|o os]; [discriminate |]. injection Hlen as Hlen.
    destruct o; cbn; rewrite (IH os l Hl Hlen); reflexivity.
  - rewrite (IH outcome l Hl Hlen). reflexivity.
Qed.

(** Which of the requested paths the older interface resolves: those whose
    catalog lookup returned a record, in the order of the request. *)
Lemma resolve_paths_picks (file_paths : list str) (acc : list WorkItem)
  (s : State) :
  exists s' items,
    resolve_paths env file_paths acc s = (s', Ok items) /\
    map file_path items
      = map file_path acc
        ++ pick true (catalog_answers env file_paths (world s)) file_paths.
Proof.
  revert acc s. induction file_paths as [|path rest IH]; intros acc s.
  - exists s, acc. cbn. rewrite app_nil_r. repeat split.
  - cbn [resolve_paths catalog_answers]. unfold bind at 1.
    unfold try_except, bind, call, logger, ret.
    destruct (lookup_audio_file env path (world s)) as [w [[[d r]|]|e]].
    + match goal with
      | |- context [resolve_paths env rest ?a ?st] =>
          destruct (IH a st) as (s' & items & Hrun & Hmap)
      end.
      exists s', items. rewrite Hrun. split; [reflexivity |].
      rewrite Hmap, map_app, <- app_assoc. reflexivity.
    + match goal with
      | |- context [resolve_paths env rest ?a ?st] =>
          destruct (IH a st) as (s' & items & Hrun & Hmap)
      end.
      exists s', items. rewrite Hrun. split; [reflexivity | exact Hmap].
    + match goal with
      | |- context [resolve_paths env rest ?a ?st] =>
          destruct (IH a st) as (s' & items & Hrun & Hmap)
      end.
      exists s', items. rewrite Hrun. split; [reflexivity | exact Hmap].
Qed.

Lemma transcribe_resolved_fates (request : Request) (file_paths : list str)
  (audio_files : option (list AudioFile)) (s : State) :
  file_paths <> [] ->
  (audio_files = None \/
   exists rows, audio_files = Some rows /\ file_paths = map af_file_path rows) ->
  exists s' out fs,
    transcribe_resolved env request file_paths audio_files s
      = (s', Ok (final_response env request file_paths out)) /\
    List.length fs = List.length file_paths /\
    successfully_transcribed out = pick_by is_processed fs file_paths /\
    map file_path (errored out) = pick_by is_errored fs file_paths /\
    (audio_files <> None -> existsb is_unresolved fs = false) /\
    (audio_files = None ->
     map is_unresolved fs
     = map negb (catalog_answers env file_paths (world s))).
Proof.
  intros Hne Hshape.
  destruct (transcribe_resolved_spec env request audio_files s Hne)
    as (s1 & items & s' & out & flags & Hres & _ & Hrun & _ & Hlen & Hs & He).
  assert (Hresolved : exists resolved,
             List.length resolved = List.length file_paths /\
             map file_path items = pick true resolved file_paths /\
             (audio_files <> None ->
              resolved = repeat true (List.length file_paths)) /\
             (audio_files = None ->
              resolved = catalog_answers env file_paths (world s))).
  { destruct Hshape as [-> | (rows & -> & ->)].
    - cbn [resolve optlist_truthy] in Hres.
      match type of Hres with
      | resolve_paths env ?fps ?a ?st = _ =>
          destruct (resolve_paths_picks fps a st)
            as (s1' & items' & Hrun' & Hmap')
      end.
      rewrite Hrun' in Hres. injection Hres as <- <-.
      exists (catalog_answers env file_paths (world s)).
      split; [apply catalog_answers_length |]. split; [exact Hmap' |].
      split; [intros H; contradiction H; reflexivity | reflexivity].
    - unfold resolve in Hres.
      destruct rows as [|row rows]; [contradiction Hne; reflexivity |].
      cbn [optlist_truthy list_truthy] in Hres. injection Hres as <- <-.
      exists (repeat true (List.length (map af_file_path (row :: rows)))).
      split; [apply repeat_length |].
      split; [| split; [reflexivity | discriminate]].
      rewrite pick_all.
      change (map file_path (map of_audio_file (row :: rows))
              = map af_file_path (row :: rows)).
      rewrite map_map. reflexivity. }
  destruct Hresolved as (resolved & Hrl & Hmap & Hall & Hcat).
  exists s', out, (fates resolved flags).
  split; [exact Hrun |].
  split; [rewrite fates_length; exact Hrl |].
  assert (Hlen' : List.length flags
                  = List.length (pick true resolved file_paths)).
  { rewrite <- Hmap, length_map. exact Hlen. }
  destruct (pick_fates resolved flags file_paths Hlen') as [H1 H2].
  split; [rewrite Hs, pick_map, Hmap; exact H1 |].
  split; [rewrite He, pick_map, Hmap; exact H2 |].
  split.
  - intros Hsome. rewrite (Hall Hsome).
    apply fates_all_resolved.
    rewrite Hlen', (Hall Hsome), pick_all. reflexivity.
  - intros Hnone. rewrite <- (Hcat Hnone).
    apply (fates_unresolved resolved flags file_paths Hrl Hlen').
Qed.

(** X1.  Every path of a batch has one fate.  Under the older interface the
    paths are those of the request, and a path is unresolved exactly when its
    catalog lookup, made in the order of the request, returned no record or
    raised; under the newer interface the paths are those of the rows the
    catalog query returned, and every path is resolved.  [total_files]
    counts all the paths; the processed files are the paths with fate
    [Processed] and the error files those with fate [Errored], both in the
    order of the paths, so that an unresolved path is in neither list. *)
Theorem path_fates (request : Request) (s : State) :
  match fetch_and_transcribe_files env request s with
  | (_, Ok body) =>
      exists paths fs,
        (if is_new_interface request then
           (exists w rows,
               query_audio_files env (unwrap (req_device_id request))
                 (unwrap (req_local_date request))
                 (if optlist_truthy (req_time_blocks request)
                  then req_time_blocks request else None)
                 (world s) = (w, Ok rows) /\
               paths = map af_file_path rows) /\
           existsb is_unresolved fs = false
         else
           paths = match req_file_paths request with
                   | Some l => l | None => [] end /\
           map is_unresolved fs
           = map negb (catalog_answers env paths (world s))) /\
        List.length paths = total_files (summary body) /\
        List.length fs = List.length paths /\
        match processed_files body with Some l => l | None => [] end
          = pick_by is_processed fs paths /\
        match error_files body with Some l => l | None => [] end
          = pick_by is_errored fs paths /\
        pending_processed (summary body)
          = List.length (pick_by is_processed fs paths) /\
        errors (summary body) = List.length (pick_by is_errored fs paths)
  | (_, Raise _) => True
  end.
Proof.
  assert (Hfinal : forall fps afs s0,
             fps <> [] ->
             (afs = None \/
              exists rows, afs = Some rows /\ fps = map af_file_path rows) ->
             match transcribe_resolved env request fps afs s0 with
             | (_, Ok body) =>
                 exists fs,
                   (afs <> None -> existsb is_unresolved fs = false) /\
                   (afs = None ->
                    map is_unresolved fs
                    = map negb (catalog_answers env fps (world s0))) /\
                   List.length fps = total_files (summary body) /\
                   List.length fs = List.length fps /\
                   match processed_files body with Some l => l | None => [] end
                     = pick_by is_processed fs fps /\
                   match error_files body with Some l => l | None => [] end
                     = pick_by is_errored fs fps /\
                   pending_processed (summary body)
                     = List.length (pick_by is_processed fs fps) /\
                   errors (summary body)
                     = List.length (pick_by is_errored fs fps)
             | (_, Raise _) => True
             end).
  { intros fps afs s0 Hne Hshape.
    destruct (transcribe_resolved_fates request s0 Hne Hshape)
      as (s' & out & fs & -> & Hlen & Hp & He & Hall & Hcat).
    exists fs. split; [exact Hall |]. split; [exact Hcat |].
    split; [reflexivity |]. split; [exact Hlen |].
    cbn [processed_files error_files summary pending_processed errors
         final_response].
    split; [exact Hp |].
    split; [destruct (errored out); [rewrite <- He; reflexivity | exact He] |].
    split; [rewrite Hp; reflexivity |].
    rewrite <- He, length_map. reflexivity. }
  unfold fetch_and_transcribe_files.
  destruct (is_new_interface request) eqn:Hnew.
  - unfold bind at 1. unfold logger at 1.
    set (s0 := add_log _ _ s).
    unfold bind at 1. unfold try_except, bind, call, logger, ret, raise.
    change (world s0) with (world s).
    match goal with
    | |- context [query_audio_files env ?d ?ld ?tb (world s)] =>
        destruct (query_audio_files env d ld tb (world s)) as [w [afs|e]]
    end; [| exact I].
    set (s1 := add_log _ _ _).
    destruct (map af_file_path afs) as [|p ps] eqn:Hfps;
      cbn [list_truthy negb].
    + exists [], []. cbn.
      split; [split; [exists w, afs; split; [reflexivity | now symmetry]
                     | reflexivity] |].
      repeat split.
    + specialize (Hfinal (p :: ps) (Some afs) s1).
      destruct (transcribe_resolved env request (p :: ps) (Some afs) s1)
        as [s' [body|e]]; [| exact I].
      destruct Hfinal as (fs & Hall & _ & Hrest);
        [discriminate | right; exists afs; split; [reflexivity | now symmetry] |].
      exists (p :: ps), fs.
      split; [| exact Hrest].
      split; [exists w, afs; split; [reflexivity | now symmetry] |].
      apply Hall. discriminate.
  - destruct (req_file_paths request) as [[|p ps]|] eqn:Hfps;
      cbn [optlist_truthy list_truthy]; try exact I.
    unfold bind at 1. unfold logger at 1.
    set (s0 := add_log _ _ s).
    specialize (Hfinal (p :: ps) None s0).
    destruct (transcribe_resolved env request (p :: ps) None s0)
      as [s' [body|e]]; [| exact I].
    destruct Hfinal as (fs & _ & Hcat & Hrest);
      [discriminate | left; reflexivity |].
    exists (p :: ps), fs.
    split; [| exact Hrest].
    split; [reflexivity | exact (Hcat eq_refl)].
Qed.

(** X2.  The loop over the items never stops early: it returns for every
    list of items, whatever failed in it, so the loop over the concatenation
    of two lists is the loop over the first carried on with the second from
    the state and the outcome the first left. *)
Theorem process_files_runs_through (l1 l2 : list WorkItem) (acc : Outcome) (s : State) :
  exists s1 acc1,
    process_files env l1 acc s = (s1, Ok acc1) /\
    process_files env (l1 ++ l2) acc s = process_files env l2 acc1 s1.
Proof.
  revert acc s. induction l1 as [|item l1 IH]; intros acc s.
  - exists s, acc. split; reflexivity.
  - destruct (process_item_spec env item acc s) as (s0 & acc0 & Hitem & _).
    destruct (IH acc0 s0) as (s1 & acc1 & Hrun & Happ).
    exists s1, acc1. cbn [app process_files]. unfold bind.
    rewrite Hitem. split; [exact Hrun | exact Happ].
Qed.

End Batches.

Section Requests.

Variable W : Type.
Variable env : Env W.

Local Abbreviation M := (M W).
Local Abbreviation State := (State W).

Lemma final_response_model (request : Request) (m : str) :
  final_response env (with_model request m) = final_response env request.
Proof. reflexivity. Qed.

Lemma fetch_and_transcribe_files_model (request : Request) (m : str)
  (s : State) :
  fetch_and_transcribe_files env (with_model request m) s
  = fetch_and_transcribe_files env request s.
Proof.
  unfold fetch_and_transcribe_files, transcribe_resolved.
  change (is_new_interface (with_model request m))
    with (is_new_interface request).
  cbn [with_model req_device_id req_local_date req_time_blocks req_file_paths].
  rewrite final_response_model.
  reflexivity.
Qed.

(** X3.  The model named in a batch request is only checked against the two
    supported names: a request that names "azure" and the same request
    naming "groq" are answered alike and leave the same state. *)
Theorem supported_models_run_alike (request : Request) (s : State) :
  post_fetch_and_transcribe env (with_model request (lit "azure")) s
  = post_fetch_and_transcribe env (with_model request (lit "groq")) s.
Proof.
  unfold post_fetch_and_transcribe, serve, fetch_and_transcribe.
  cbn [with_model req_model].
  replace (negb (existsb (str_eqb (lit "azure")) [lit "azure"; lit "groq"]))
    with false by reflexivity.
  replace (negb (existsb (str_eqb (lit "groq")) [lit "azure"; lit "groq"]))
    with false by reflexivity.
  unfold try_except.
  change {| req_file_paths := req_file_paths request;
            req_device_id := req_device_id request;
            req_local_date := req_local_date request;
            req_time_blocks := req_time_blocks request;
            req_model := lit "azure" |}
    with (with_model request (lit "azure")).
  change {| req_file_paths := req_file_paths request;
            req_device_id := req_device_id request;
            req_local_date := req_local_date request;
            req_time_blocks := req_time_blocks request;
            req_model := lit "groq" |}
    with (with_model request (lit "groq")).
  rewrite !fetch_and_transcribe_files_model. reflexivity.
Qed.

Lemma fetch_and_transcribe_files_paths (request : Request)
  (fps : option (list str)) (s : State) :
  is_new_interface request = true ->
  fetch_and_transcribe_files env (with_file_paths request fps) s
  = fetch_and_transcribe_files env request s.
Proof.
  intros Hnew. unfold fetch_and_transcribe_files, transcribe_resolved.
  change (is_new_interface (with_file_paths request fps))
    with (is_new_interface request).
  rewrite Hnew.
  cbn [with_file_paths req_device_id req_local_date req_time_blocks].
  change (final_response env (with_file_paths request fps))
    with (final_response env request).
  reflexivity.
Qed.

(** X4.  When a batch request carries a device and a local date, the file paths
    it may also carry are not read: the answer and the final state are
    those of the same request with any other list of paths, or with none. *)
Theorem file_paths_ignored_with_device (request : Request)
  (fps : option (list str)) (s : State) :
  is_new_interface request = true ->
  post_fetch_and_transcribe env (with_file_paths request fps) s
  = post_fetch_and_transcribe env request s.
Proof.
  intros Hnew.
  unfold post_fetch_and_transcribe, serve, fetch_and_transcribe.
  change (req_model (with_file_paths request fps)) with (req_model request).
  destruct (negb (existsb (str_eqb (req_model request))
                          [lit "azure"; lit "groq"])); [reflexivity |].
  unfold try_except.
  rewrite (fetch_and_transcribe_files_paths request fps s Hnew).
  reflexivity.
Qed.

Lemma fetch_and_transcribe_files_raises (request : Request) (s : State) :
  match fetch_and_transcribe_files env request s with
  | (_, Ok _) => True
  | (s', Raise e) =>
      (e = HTTPException 400 MissingSelector /\ s' = s) \/
      (exists cause, e = HTTPException 500 (DbQueryError cause))
  end.
Proof.
  unfold fetch_and_transcribe_files.
  destruct (is_new_interface request).
  - unfold bind at 1. unfold logger at 1.
    set (s0 := add_log _ _ s).
    unfold bind at 1. unfold try_except, bind, call, logger, ret, raise.
    match goal with
    | |- context [query_audio_files env ?d ?ld ?tb (world s0)] =>
        destruct (query_audio_files env d ld tb (world s0)) as [w [afs|e]]
    end.
    + set (s1 := add_log _ _ _).
      destruct (map af_file_path afs) as [|p ps]; cbn [list_truthy negb];
        [exact I |].
      destruct (transcribe_resolved_total env request (p :: ps) (Some afs) s1)
        as (s' & resp & -> & _). exact I.
    + right. eexists. reflexivity.
  - destruct (optlist_truthy (req_file_paths request)).
    + unfold bind at 1. unfold logger at 1.
      set (s0 := add_log _ _ s).
      match goal with
      | |- context [transcribe_resolved env request ?fps None s0] =>
          destruct (transcribe_resolved_total env request fps None s0)
            as (s' & resp & -> & _)
      end.
      exact I.
    + left. split; reflexivity.
Qed.

(** X5.  A batch request answered with 400 changed nothing: no outside call was
    made and not even a log record was written. *)
Theorem refused_batch_changes_nothing (request : Request) (s s' : State) :
  post_fetch_and_transcribe env request s = (s', HttpFailure 400) ->
  s' = s.
Proof.
  unfold post_fetch_and_transcribe, serve, fetch_and_transcribe.
  destruct (negb (existsb (str_eqb (req_model request))
                          [lit "azure"; lit "groq"])).
  - intros [= <-]. reflexivity.
  - unfold try_except.
    pose proof (fetch_and_transcribe_files_raises request s) as Hcases.
    destruct (fetch_and_transcribe_files env request s) as [s1 [resp|e]].
    + discriminate.
    + destruct Hcases as [[-> ->] | [cause ->]].
      * intros [= <-]. reflexivity.
      * cbn. discriminate.
Qed.


(** X7.  What the background task leaves in the queue, whatever fails.  The
    pipeline returns a response.  When the update of the status to
    "completed" and the send of the completed event both return, the task
    returns and the one event added says "completed" and carries the
    processed files of that response and no error.  When one of the two
    raised, the task sends the failed event carrying that exception and no
    list: either that send returns, and this event is the one added, or it
    raises, the task raises what the send raised and the queue is as
    before. *)
Theorem background_event_shape (path d r : str) (s : State) :
  exists s1 resp s' res,
    fetch_and_transcribe_files env (single_file_request path)
      (add_log INFO (BackgroundStarted d) s) = (s1, Ok resp) /\
    process_in_background env path d r s = (s', res) /\
    ((completion_returned env d r resp s1 /\ res = Ok tt /\
      queue s' = queue s ++
        [{| ev_device_id := d; ev_recorded_at := r;
            ev_feature_type := lit "vibe"; ev_status := lit "completed";
            ev_processed_files :=
              Some (match processed_files resp with
                    | Some l => l | None => [] end);
            ev_error := None |}]) \/
     (exists e,
         completion_raised env d r resp s1 e /\
         ((res = Ok tt /\
           queue s' = queue s ++
             [{| ev_device_id := d; ev_recorded_at := r;
                 ev_feature_type := lit "vibe"; ev_status := lit "failed";
                 ev_processed_files := None; ev_error := Some e |}]) \/
          (queue s' = queue s /\
           exists e' w,
             res = Raise e' /\
             snd (send_message env (failed_event d r e) w) = Raise e')))).
Proof.
  destruct (background_cases env path d r s)
    as (s1 & resp & s' & res & Hrun & Htask & _ & _ & Hcases).
  exists s1, resp, s', res.
  split; [exact Hrun |]. split; [exact Htask |]. exact Hcases.
Qed.

End Requests.

(** ** Text *)

Lemma lstrip_head (s : str) :
  match lstrip s with
  | [] => True
  | c :: _ => py_isspace c = false
  end.
Proof.
  induction s as [|c t IH]; [exact I |].
  cbn. destruct (py_isspace c) eqn:Hc; [exact IH | exact Hc].
Qed.

Lemma lstrip_fixed (c : N) (t : str) :
  py_isspace c = false -> lstrip (c :: t) = c :: t.
Proof. intros H. cbn. rewrite H. reflexivity. Qed.

Lemma lstrip_idem (s : str) : lstrip (lstrip s) = lstrip s.
Proof.
  pose proof (lstrip_head s) as H.
  destruct (lstrip s) as [|c t]; [reflexivity | now apply lstrip_fixed].
Qed.

Lemma lstrip_snoc (l : str) (c : N) :
  py_isspace c = false -> lstrip (l ++ [c]) = lstrip l ++ [c].
Proof.
  intros Hc. induction l as [|x l IH].
  - cbn. rewrite Hc. reflexivity.
  - cbn. destruct (py_isspace x); [exact IH | reflexivity].
Qed.

Lemma rstrip_idem (s : str) : rstrip (rstrip s) = rstrip s.
Proof. unfold rstrip. rewrite rev_involutive, lstrip_idem. reflexivity. Qed.

Lemma rstrip_keeps_head (c : N) (t : str) :
  py_isspace c = false -> rstrip (c :: t) = c :: rstrip t.
Proof.
  intros Hc. unfold rstrip. cbn [rev].
  rewrite lstrip_snoc by exact Hc. rewrite rev_app_distr. reflexivity.
Qed.

Lemma lstrip_rstrip (s : str) :
  lstrip s = s -> lstrip (rstrip s) = rstrip s.
Proof.
  intros Hs. pose proof (lstrip_head s) as Hh. rewrite Hs in Hh.
  destruct s as [|c t]; [reflexivity |].
  rewrite rstrip_keeps_head by exact Hh. now apply lstrip_fixed.
Qed.

Lemma strip_idem (s : str) : strip (strip s) = strip s.
Proof.
  unfold strip.
  rewrite lstrip_rstrip by apply lstrip_idem. apply rstrip_idem.
Qed.

(** X8.  The text that is stored is a fixed point of the classification: it is
    not empty, it has no whitespace at either end, and classifying it again
    gives the same text (so what was stored for no speech reads as
    no speech when processed again). *)
Theorem stored_text_is_settled (text : str) :
  let stored := final_transcription (strip text) in
  stored <> [] /\
  strip stored = stored /\
  final_transcription (strip stored) = stored.
Proof.
  cbv zeta.
  assert (Hne : final_transcription (strip text) <> []).
  { unfold final_transcription.
    destruct (strip text); cbn; discriminate. }
  assert (Hfix : strip (final_transcription (strip text))
                 = final_transcription (strip text)).
  { unfold final_transcription.
    destruct (strip text) as [|c t] eqn:Hs; cbn [str_truthy].
    - reflexivity.
    - rewrite <- Hs. apply strip_idem. }
  split; [exact Hne |]. split; [exact Hfix |].
  rewrite Hfix. unfold final_transcription at 1.
  destruct (final_transcription (strip text)); [contradiction Hne |]; reflexivity.
Qed.

Lemma after_last_slash_no_slash (acc s : str) :
  existsb (N.eqb 47) s = false -> after_last_slash acc s = acc.
Proof.
  revert acc. induction s as [|c t IH]; intros acc H; [reflexivity |].
  cbn [existsb] in H. apply orb_false_iff in H. destruct H as [Hc Ht].
  cbn [after_last_slash]. rewrite N.eqb_sym, Hc. apply IH. exact Ht.
Qed.

Lemma after_last_slash_app (acc dir name : str) :
  existsb (N.eqb 47) name = false ->
  after_last_slash acc (dir ++ 47%N :: name) = name.
Proof.
  intros H. revert acc. induction dir as [|c t IH]; intros acc.
  - cbn [app after_last_slash]. rewrite N.eqb_refl.
    now apply after_last_slash_no_slash.
  - cbn [app after_last_slash]. destruct (c =? 47)%N; apply IH.
Qed.

(** Scanning [rest] with a candidate that ends in [rest] and has no slash
    before it. *)
Lemma after_last_slash_clean (rest acc : str) :
  (exists pre, acc = pre ++ rest /\ existsb (N.eqb 47) pre = false) ->
  existsb (N.eqb 47) (after_last_slash acc rest) = false.
Proof.
  revert acc. induction rest as [|x rest IH]; intros acc (pre & -> & Hpre).
  - cbn [after_last_slash]. rewrite app_nil_r. exact Hpre.
  - cbn [after_last_slash]. destruct (x =? 47)%N eqn:Hx.
    + apply IH. exists []. split; reflexivity.
    + apply IH. exists (pre ++ [x]).
      split; [rewrite <- app_assoc; reflexivity |].
      rewrite existsb_app, Hpre. cbn [existsb orb].
      rewrite N.eqb_sym, Hx. reflexivity.
Qed.

(** The last component of a path: of [dir/name] it is [name], a path
    without a slash is its own last component, and the component never
    contains a slash. *)
Lemma basename_last_component (dir name : str) :
  existsb (N.eqb 47) name = false ->
  basename (dir ++ 47%N :: name) = name /\
  basename name = name /\
  forall path, existsb (N.eqb 47) (basename path) = false.
Proof.
  intros H. unfold basename.
  split; [now apply after_last_slash_app |].
  split; [now apply after_last_slash_no_slash |].
  intros path. apply after_last_slash_clean.
  exists []. split; reflexivity.
Qed.

Section AsrName.

Variable W : Type.
Variable env : Env W.

Lemma run_calls_no_transcribe (data : Payload) (k : nat) (run : list Attempt)
  (c : Call) :
  In c (run_calls data k run) ->
  match c with CTranscribe _ _ _ _ => False | _ => True end.
Proof.
  revert k. induction run as [|a rest IH]; intros k Hin; [destruct Hin |].
  cbn [run_calls] in Hin.
  apply in_app_or in Hin. destruct Hin as [Hin | Hin].
  - destruct k; [destruct Hin |].
    destruct Hin as [<- | []]. exact I.
  - apply in_app_or in Hin. destruct Hin as [Hin | Hin].
    + destruct a; cbn in Hin;
        repeat (destruct Hin as [<- | Hin]; [exact I |]); destruct Hin.
    + exact (IH _ Hin).
Qed.

(** X9.  The ASR provider is called at most once for an item, with the
    temporary file the download filled, and the file name it is given is the
    last component of the item's path: the text after the last slash, the
    whole path when it has no slash, never a name with a slash in it.  The
    call is made exactly when the temporary file was created and the
    download returned. *)
Theorem asr_gets_last_component (item : WorkItem) (s : State W) :
  exists calls,
    trace (fst (transcribe_item env item s)) = trace s ++ calls /\
    (forall tmp name detailed high_accuracy,
        In (CTranscribe tmp name detailed high_accuracy) calls ->
        tmp = unused_name (tmp_files s) /\
        name = basename (file_path item) /\
        existsb (N.eqb 47) name = false /\
        detailed = false /\ high_accuracy = true) /\
    match create_temp env (world s) with
    | (w1, Ok _) =>
        match download_file env (s3_bucket_name env) (file_path item)
                (unused_name (tmp_files s)) w1 with
        | (_, Ok _) =>
            List.length
              (filter (fun c => match c with
                                | CTranscribe _ _ _ _ => true
                                | _ => false end) calls) = 1
        | (_, Raise _) =>
            forall tmp name d h, ~ In (CTranscribe tmp name d h) calls
        end
    | (_, Raise _) => forall tmp name d h, ~ In (CTranscribe tmp name d h) calls
    end /\
    (forall dir name,
        file_path item = dir ++ 47%N :: name ->
        existsb (N.eqb 47) name = false ->
        basename (file_path item) = name) /\
    (existsb (N.eqb 47) (file_path item) = false ->
     basename (file_path item) = file_path item).
Proof.
  assert (Hclean : existsb (N.eqb 47) (basename (file_path item)) = false).
  { apply (basename_last_component [] []). reflexivity. }
  assert (Hname :
    (forall dir name,
        file_path item = dir ++ 47%N :: name ->
        existsb (N.eqb 47) name = false ->
        basename (file_path item) = name) /\
    (existsb (N.eqb 47) (file_path item) = false ->
     basename (file_path item) = file_path item)).
  { split.
    - intros dir name -> H. apply (basename_last_component dir name H).
    - intros H. apply (basename_last_component [] (file_path item) H). }
  unfold transcribe_item, NamedTemporaryFile.
  unfold bind at 1. unfold bind at 1. unfold call at 1.
  destruct (create_temp env (world s)) as [w1 [[]|e]].
  2:{ exists [CCreateTemp]. split; [reflexivity |].
      split; [intros tmp name d h [H | []]; discriminate H |].
      split; [intros tmp name d h [H | []]; discriminate H | exact Hname]. }
  cbn [tmp_files set_world add_call].
  set (tmp := unused_name (tmp_files s)).
  set (s1 := set_tmp _ _).
  unfold try_finally.
  unfold bind at 1. unfold call at 1.
  change (world s1) with w1.
  destruct (download_file env (s3_bucket_name env) (file_path item) tmp w1)
    as [w2 [[]|e]].
  2:{ match goal with
      | |- context [unlink_if_exists tmp ?st] =>
          assert (Hun : trace (fst (unlink_if_exists tmp st)) = trace st
                        /\ snd (unlink_if_exists tmp st) = Ok tt)
            by (unfold unlink_if_exists;
                destruct (existsb (N.eqb tmp) (tmp_files st));
                split; reflexivity);
          destruct (unlink_if_exists tmp st) as [s3 r3]
      end.
      cbn [fst snd] in Hun. destruct Hun as [Htr ->]. cbn [fst].
      exists [CCreateTemp; CDownload (s3_bucket_name env) (file_path item) tmp].
      split; [rewrite Htr; cbn; rewrite <- app_assoc; reflexivity |].
      split; [intros t n d h [H | [H | []]]; discriminate H |].
      split; [intros t n d h [H | [H | []]]; discriminate H | exact Hname]. }
  set (s2 := set_world w2 _).
  unfold bind at 1. unfold call at 1.
  destruct (transcribe_audio env tmp (basename (file_path item)) false true
              (world s2)) as [w3 [res|e]].
  2:{ match goal with
      | |- context [unlink_if_exists tmp ?st] =>
          assert (Hun : trace (fst (unlink_if_exists tmp st)) = trace st
                        /\ snd (unlink_if_exists tmp st) = Ok tt)
            by (unfold unlink_if_exists;
                destruct (existsb (N.eqb tmp) (tmp_files st));
                split; reflexivity);
          destruct (unlink_if_exists tmp st) as [s3 r3]
      end.
      cbn [fst snd] in Hun. destruct Hun as [Htr ->]. cbn [fst].
      exists [CCreateTemp; CDownload (s3_bucket_name env) (file_path item) tmp;
              CTranscribe tmp (basename (file_path item)) false true].
      split; [rewrite Htr; cbn; rewrite <- !app_assoc; reflexivity |].
      split.
      { intros t n d h [H | [H | [H | []]]]; try discriminate H.
        injection H as <- <- <- <-. repeat split. exact Hclean. }
      split; [reflexivity | exact Hname]. }
  set (s3 := set_world w3 _).
  destruct (store_transcription_calls env item res s3)
    as (local & run & s4 & r4 & Hstore & _ & Htr4).
  rewrite Hstore.
  match goal with
  | |- context [unlink_if_exists tmp ?st] =>
      assert (Hun : trace (fst (unlink_if_exists tmp st)) = trace st
                    /\ snd (unlink_if_exists tmp st) = Ok tt)
        by (unfold unlink_if_exists;
            destruct (existsb (N.eqb tmp) (tmp_files st));
            split; reflexivity);
      destruct (unlink_if_exists tmp st) as [s5 r5]
  end.
  cbn [fst snd] in Hun. destruct Hun as [Htr ->]. cbn [fst].
  set (data := build_data item local
                 (final_transcription (strip (transcription res)))) in *.
  exists ([CCreateTemp; CDownload (s3_bucket_name env) (file_path item) tmp;
           CTranscribe tmp (basename (file_path item)) false true;
           CLookupLocal (device_id item) (recorded_at item)]
          ++ run_calls data 0 run).
  split.
  { rewrite Htr, Htr4. cbn. rewrite <- !app_assoc. reflexivity. }
  split.
  { intros t n d h Hin. apply in_app_or in Hin. destruct Hin as [Hin | Hin].
    - destruct Hin as [H | [H | [H | [H | []]]]]; try discriminate H.
      injection H as <- <- <- <-. repeat split. exact Hclean.
    - destruct (run_calls_no_transcribe _ _ _ _ Hin). }
  split; [| exact Hname].
  rewrite filter_app. cbn [filter app].
  assert (Hnone : filter (fun c => match c with
                                   | CTranscribe _ _ _ _ => true
                                   | _ => false end) (run_calls data 0 run)
                  = []).
  { pose proof (run_calls_no_transcribe data 0 run) as H. revert H.
    generalize (run_calls data 0 run) as l.
    induction l as [|c l IH]; intros H; [reflexivity |].
    pose proof (H c (or_introl eq_refl)) as Hc.
    pose proof (IH (fun c' Hc' => H c' (or_intror Hc'))) as IH'.
    destruct c; first [contradiction | exact IH']. }
  rewrite Hnone. reflexivity.
Qed.

End AsrName.

Lemma jst_before_nine (now : Z) :
  (jst_hour now < 9 <-> 15 <= utc_hour now)%Z.
Proof.
  unfold jst_hour, utc_hour.
  replace (now + 9 * 3600)%Z with (now + 9 * 3600)%Z by reflexivity.
  rewrite Z.div_add by lia.
  pose proof (Z.mod_pos_bound (now / 3600) 24 ltac:(lia)) as Hb.
  pose proof (Z.div_mod (now / 3600) 24 ltac:(lia)) as Hd.
  pose proof (Z.mod_pos_bound (now / 3600 + 9) 24 ltac:(lia)) as Hb'.
  pose proof (Z.div_mod (now / 3600 + 9) 24 ltac:(lia)) as Hd'.
  lia.
Qed.

Section Heuristic.

Variable W : Type.
Variable env : Env W.

(** X10.  For a clock reading since 1970-01-01 00:00 UTC, when Asia/Tokyo is
    nine hours ahead of UTC all year, the quota warning can only be given
    from 15:00 UTC on: the check returns true exactly when the stripped text
    is empty, the no-speech flag is not set and the hour of the day in UTC
    is 15 or later. *)
Theorem quota_window_in_utc (res : AsrResult) (t : str) (s : State W) :
  (0 <= utc_now env (world s))%Z ->
  snd (quota_check env res t s) = Ok true <->
  (t = [] /\ no_speech_flag res = false
   /\ (15 <= utc_hour (utc_now env (world s)))%Z).
Proof.
  intros _.
  destruct (quota_check_spec env res t s) as (s' & b & Hq & _ & Hiff & _).
  rewrite Hq. cbn [snd]. unfold quota_suspected in Hiff.
  rewrite <- jst_before_nine. split.
  - intros [= ->]. apply Hiff. reflexivity.
  - intros H. apply Hiff in H. congruence.
Qed.

End Heuristic.

(** ** The constructor *)

Section ConstructionFacts.

Variables Asr Supabase S3 : Type.

(** X11.  A service object is built exactly when the four credentials are set
    and not empty and the three clients could be made; its bucket is the
    value of [S3_BUCKET_NAME] when that is set, be it empty, and
    "watchme-vault" when it is not. *)
Theorem init_needs_all_credentials (rt : Runtime Asr Supabase S3) :
  let url := getenv rt (lit "SUPABASE_URL") in
  let key := getenv rt (lit "SUPABASE_KEY") in
  let key_id := getenv rt (lit "AWS_ACCESS_KEY_ID") in
  let secret := getenv rt (lit "AWS_SECRET_ACCESS_KEY") in
  let region := getenv_or rt (lit "AWS_REGION") (lit "us-east-1") in
  ((exists svc, snd (init rt) = Ok svc) <->
   ((opt_truthy url && opt_truthy key
     && opt_truthy key_id && opt_truthy secret = true) /\
    (exists asr, get_current_asr rt = Ok asr) /\
    (exists client, create_client rt (unwrap url) (unwrap key) = Ok client) /\
    (exists s3, boto3_client rt (unwrap key_id) (unwrap secret) region
                = Ok s3))) /\
  match snd (init rt) with
  | Ok svc =>
      svc_s3_bucket_name svc
      = match getenv rt (lit "S3_BUCKET_NAME") with
        | Some b => b
        | None => lit "watchme-vault"
        end
  | Raise _ => True
  end.
Proof.
  cbv zeta. unfold init, getenv_or.
  destruct (get_current_asr rt) as [asr|e0].
  2:{ split; [| exact I]. split.
      - intros [svc H]. discriminate H.
      - intros (_ & [asr H] & _). discriminate H. }
  destruct (opt_truthy (getenv rt (lit "SUPABASE_URL"))) eqn:Hu;
    cbn [negb orb andb].
  2:{ split; [| exact I]. split.
      - intros [svc H]. discriminate H.
      - intros (H & _). discriminate H. }
  destruct (opt_truthy (getenv rt (lit "SUPABASE_KEY"))) eqn:Hk;
    cbn [negb orb andb].
  2:{ split; [| exact I]. split.
      - intros [svc H]. discriminate H.
      - intros (H & _). discriminate H. }
  destruct (create_client rt (unwrap (getenv rt (lit "SUPABASE_URL")))
              (unwrap (getenv rt (lit "SUPABASE_KEY")))) as [client|e1].
  2:{ split; [| exact I]. split.
      - intros [svc H]. discriminate H.
      - intros (_ & _ & [c H] & _). discriminate H. }
  destruct (opt_truthy (getenv rt (lit "AWS_ACCESS_KEY_ID"))) eqn:Ha;
    cbn [negb orb andb].
  2:{ split; [| exact I]. split.
      - intros [svc H]. discriminate H.
      - intros (H & _). discriminate H. }
  destruct (opt_truthy (getenv rt (lit "AWS_SECRET_ACCESS_KEY"))) eqn:Hs;
    cbn [negb orb andb].
  2:{ split; [| exact I]. split.
      - intros [svc H]. discriminate H.
      - intros (H & _). discriminate H. }
  match goal with
  | |- context [boto3_client rt ?a ?b ?c] =>
      destruct (boto3_client rt a b c) as [s3|e2]
  end.
  2:{ split; [| exact I]. split.
      - intros [svc H]. discriminate H.
      - intros (_ & _ & _ & [c H]). discriminate H. }
  cbn [snd svc_s3_bucket_name]. split; [| reflexivity].
  split.
  - intros _. split; [reflexivity |].
    split; [eexists; reflexivity |].
    split; eexists; reflexivity.
  - intros _. eexists. reflexivity.
Qed.

End ConstructionFacts.

(** ** The upload endpoint *)

Lemma split_at_two (sep : N) (stem ext : str) :
  exists seg1 seg2 rest, split_at sep (stem ++ sep :: ext) = seg1 :: seg2 :: rest.
Proof.
  induction stem as [|c t IH].
  - cbn [app split_at]. rewrite N.eqb_refl.
    destruct ext as [|x ext']; cbn [split_at].
    + do 3 eexists. reflexivity.
    + destruct (x =? sep)%N; [do 3 eexists; reflexivity |].
      destruct (split_at sep ext') as [|seg rest]; do 3 eexists; reflexivity.
  - destruct IH as (seg1 & seg2 & rest & IH).
    cbn [app split_at]. rewrite IH.
    destruct (c =? sep)%N; do 3 eexists; reflexivity.
Qed.

Lemma split_at_no_sep (sep : N) (s : str) :
  existsb (N.eqb sep) s = false -> split_at sep s = [s].
Proof.
  induction s as [|c t IH]; intros H; [reflexivity |].
  cbn [existsb] in H. apply orb_false_iff in H. destruct H as [Hc Ht].
  cbn [split_at]. rewrite N.eqb_sym, Hc, (IH Ht). reflexivity.
Qed.

Lemma last_split_at_app (sep : N) (stem ext d : str) :
  last (split_at sep (stem ++ sep :: ext)) d = last (split_at sep ext) d.
Proof.
  induction stem as [|c t IH].
  - cbn [app split_at]. rewrite N.eqb_refl.
    destruct ext as [|x ext']; [reflexivity |].
    cbn [split_at]. destruct (x =? sep)%N; [reflexivity |].
    destruct (split_at sep ext'); reflexivity.
  - destruct (split_at_two sep t ext) as (seg1 & seg2 & rest & Htwo).
    cbn [app split_at]. rewrite Htwo in IH |- *.
    destruct (c =? sep)%N; exact IH.
Qed.

Lemma file_extension_last_segment (stem ext : str) :
  existsb (N.eqb 46) ext = false ->
  file_extension (stem ++ 46%N :: ext) = 46%N :: lower ext /\
  file_extension ext = 46%N :: lower ext.
Proof.
  intros H. unfold file_extension.
  rewrite last_split_at_app, (split_at_no_sep _ _ H). split; reflexivity.
Qed.

(** X12.  Whether an upload is refused depends on its name only through what
    follows the last dot: [stem.ext] is treated as [.ext] whatever the stem,
    the extension being compared in lower case; and a name without a dot
    counts as its own extension. *)
Theorem upload_format_reads_last_segment (F : Type) (stem ext : str)
  (sz : option N) (f : F) :
  existsb (N.eqb 46) ext = false ->
  upload_refusal {| up_filename := Some (stem ++ 46%N :: ext);
                    up_size := sz; up_file := f |}
  = upload_refusal {| up_filename := Some (46%N :: ext);
                      up_size := sz; up_file := f |} /\
  file_extension (stem ++ 46%N :: ext) = 46%N :: lower ext /\
  file_extension ext = 46%N :: lower ext.
Proof.
  intros H.
  destruct (file_extension_last_segment stem ext H) as [H1 H2].
  destruct (file_extension_last_segment [] ext H) as [H3 _].
  split; [| split; assumption].
  unfold upload_refusal. cbn [up_filename up_size opt_truthy unwrap].
  replace (str_truthy (stem ++ 46%N :: ext)) with true
    by (destruct stem; reflexivity).
  cbn [str_truthy]. rewrite H1. cbn [app] in H3. rewrite H3. reflexivity.
Qed.

Section UploadFacts.

Variables W F P R T : Type.
Variable uenv : UploadEnv W F P R T.

(** X13.  The answers of the upload endpoint.  A refusal of the request (no
    file name, a format that is not supported, more than 25 MiB) is answered
    400 with nothing called and nothing logged.  Every other failure comes
    from an exception raised after the request was admitted, by the provider
    factory, the transcription or the construction of the response: an
    [HTTPException] is answered with its own status code and detail, any
    other exception with 500. *)
Theorem upload_answers (file : UploadFile F) (detailed high_accuracy : bool)
  (provider model : option str) (w : W) :
  match analyze_audio uenv file detailed high_accuracy provider model w with
  | (w', logged, inr (code, why)) =>
      match why with
      | UnsupportedFormat | MissingFilename | FileTooLarge =>
          code = 400 /\ w' = w /\ logged = []
          /\ upload_refusal file = Some why
      | PassedOn detail =>
          upload_refusal file = None /\
          upload_raised uenv file detailed high_accuracy provider model w
            (HTTPException code detail)
      | UnexpectedError e =>
          code = 500 /\ upload_refusal file = None /\
          upload_raised uenv file detailed high_accuracy provider model w e /\
          (forall c d, e <> HTTPException c d)
      end
  | (_, _, inl _) => upload_refusal file = None
  end.
Proof.
  unfold analyze_audio.
  destruct (upload_refusal file) as [why|] eqn:Hrefusal.
  - assert (Hwhy : match why with
                   | UnsupportedFormat | MissingFilename | FileTooLarge => True
                   | _ => False
                   end).
    { unfold upload_refusal in Hrefusal.
      destruct (opt_truthy (up_filename file)).
      - destruct (negb _); [injection Hrefusal as <-; exact I |].
        destruct (up_size file) as [n|]; [| discriminate].
        destruct ((0 <? n) && (MAX_UPLOAD <? n))%N;
          [injection Hrefusal as <-; exact I | discriminate].
      - injection Hrefusal as <-. exact I. }
    destruct why; try contradiction; repeat split.
  - assert (Hfail : forall e,
               upload_raised uenv file detailed high_accuracy provider model
                             w e ->
               match upload_failure e with
               | (code, UnexpectedError e') =>
                   code = 500 /\ None = (None : option UploadFailure) /\
                   upload_raised uenv file detailed high_accuracy provider
                                 model w e' /\
                   (forall c d, e' <> HTTPException c d)
               | (code, PassedOn detail) =>
                   None = (None : option UploadFailure) /\
                   upload_raised uenv file detailed high_accuracy provider
                                 model w (HTTPException code detail)
               | _ => False
               end).
    { intros e He. destruct e; cbn; repeat split; try exact He;
        intros c d' H; discriminate H. }
    assert (Hend : forall e (w' : W) (logged : list UploadLog),
               upload_raised uenv file detailed high_accuracy provider model
                             w e ->
               match (w', logged,
                      @inr T (nat * UploadFailure) (upload_failure e)) with
               | (w'', logged', inr (code, why)) =>
                   match why with
                   | UnsupportedFormat | MissingFilename | FileTooLarge =>
                       code = 400 /\ w'' = w /\ logged' = []
                       /\ None = Some why
                   | PassedOn detail =>
                       None = (None : option UploadFailure) /\
                       upload_raised uenv file detailed high_accuracy provider
                                     model w (HTTPException code detail)
                   | UnexpectedError e' =>
                       code = 500 /\ None = (None : option UploadFailure) /\
                       upload_raised uenv file detailed high_accuracy provider
                                     model w e' /\
                       (forall c d, e' <> HTTPException c d)
                   end
               | (_, _, inl _) => None = (None : option UploadFailure)
               end).
    { intros e w' logged He. specialize (Hfail e He).
      destruct (upload_failure e) as [code why].
      destruct why; try contradiction; exact Hfail. }
    destruct (opt_truthy provider) eqn:Hprov.
    + destruct (ASRFactory_create uenv (unwrap provider) model w)
        as [w1 [asr|e]] eqn:Hcreate.
      * destruct (up_transcribe_audio uenv asr (up_file file)
                    (unwrap (up_filename file)) detailed high_accuracy w1)
          as [w2 [result|e]] eqn:Hrun.
        -- destruct (TranscriptionResponse uenv result _ _) as [resp|e] eqn:Hresp;
             [reflexivity |].
           apply Hend. right. right. exists asr, result. exact Hresp.
        -- apply Hend. right. left. exists asr, w1, w2. exact Hrun.
      * apply Hend. left. split; [exact Hprov |]. exists w1. exact Hcreate.
    + destruct (up_transcribe_audio uenv (service_asr_provider uenv)
                  (up_file file) (unwrap (up_filename file)) detailed
                  high_accuracy w) as [w2 [result|e]] eqn:Hrun.
      * destruct (TranscriptionResponse uenv result _ _) as [resp|e] eqn:Hresp;
          [reflexivity |].
        apply Hend. right. right.
        exists (service_asr_provider uenv), result. exact Hresp.
      * apply Hend. right. left.
        exists (service_asr_provider uenv), w, w2. exact Hrun.
Qed.

End UploadFacts.

(** X14.  An upload is refused for its size exactly when its name passed the
    format check and its size is known and above 25 MiB: a size of exactly
    25 MiB, and an unknown size, pass. *)
Theorem upload_size_limit (F : Type) (file : UploadFile F) :
  upload_refusal file = Some FileTooLarge <->
  (opt_truthy (up_filename file) = true /\
   existsb (str_eqb (file_extension (unwrap (up_filename file))))
           allowed_extensions = true /\
   exists n, up_size file = Some n /\ (26214400 < n)%N).
Proof.
  unfold upload_refusal.
  destruct (opt_truthy (up_filename file)).
  2:{ split; [discriminate | intros (H & _); discriminate H]. }
  destruct (existsb _ allowed_extensions); cbn [negb].
  2:{ split; [discriminate | intros (_ & H & _); discriminate H]. }
  destruct (up_size file) as [n|].
  2:{ split; [discriminate | intros (_ & _ & n & H & _); discriminate H]. }
  change MAX_UPLOAD with 26214400%N.
  destruct (N.ltb_spec 0 n) as [Hpos | Hzero];
    destruct (N.ltb_spec 26214400 n) as [Hbig | Hsmall]; cbn [andb].
  - split; [intros _ | reflexivity].
    split; [reflexivity |]. split; [reflexivity |]. exists n. split; auto.
  - split; [discriminate |].
    intros (_ & _ & m & [= <-] & Hm). lia.
  - lia.
  - split; [discriminate |].
    intros (_ & _ & m & [= <-] & Hm). lia.
Qed.

Section Tolerance.

Variable W : Type.
Variable env : Env W.

(** X15.  The lookup of the local date and time cannot fail an item: the payload
    that is upserted carries the first row the catalog returned, and when
    the catalog returned no row, or the lookup raised, it carries both
    fields unset. *)
Theorem local_lookup_tolerated (item : WorkItem) (res : AsrResult)
  (s : State W) :
  exists local (run : list Attempt) s' r calls,
    store_transcription env item res s = (s', r) /\
    trace s' = trace s ++ calls /\
    1 <= List.length run /\
    upserted calls
      = repeat (build_data item local
                  (final_transcription (strip (transcription res))))
               (List.length run) /\
    match lookup_local env (device_id item) (recorded_at item) (world s) with
    | (_, Ok (row :: _)) => local = row
    | _ => local = (None, None)
    end.
Proof.
  unfold store_transcription.
  destruct (quota_check_spec env res (strip (transcription res)) s)
    as (s1 & b & Hq & (Hw1 & Htr1 & _) & _).
  rewrite (@bind_ok _ _ _ _ _ _ _ _ Hq).
  assert (Hlocal : exists s2 local,
             fetch_local env (device_id item) (recorded_at item) s1
               = (s2, Ok local) /\
             trace s2 = trace s1 ++
               [CLookupLocal (device_id item) (recorded_at item)] /\
             match lookup_local env (device_id item) (recorded_at item)
                     (world s) with
             | (_, Ok (row :: _)) => local = row
             | _ => local = (None, None)
             end).
  { unfold fetch_local, try_except, bind, call, logger, ret.
    rewrite <- Hw1.
    destruct (lookup_local env (device_id item) (recorded_at item) (world s))
      as [w [[|row rows]|e]]; do 2 eexists; repeat split. }
  destruct Hlocal as (s2 & local & Hl & Htr2 & Hrow).
  rewrite (@bind_ok _ _ _ _ _ _ _ _ Hl).
  set (data := build_data item local
                 (final_transcription (strip (transcription res)))).
  destruct (upsert_with_retry_spec env data s2)
    as (run & s3 & r3 & Hu & Hc & Htr3 & _).
  exists local, run. unfold bind. rewrite Hu.
  assert (Hcalls : trace s3 = trace s ++
            CLookupLocal (device_id item) (recorded_at item)
            :: run_calls data 0 run).
  { rewrite Htr3, Htr2, <- Htr1, <- app_assoc. reflexivity. }
  destruct r3 as [[]|e]; cbn; do 3 eexists;
    (split; [reflexivity |]);
    (split; [cbn; exact Hcalls |]);
    (split; [apply (complete_run_length _ _ Hc) |]);
    (split; [cbn [upserted]; apply upserted_run | exact Hrow]).
Qed.

End Tolerance.

(** ** Instances *)

(** A request that names a device and a date besides a list of paths. *)
Lemma file_paths_ignored_with_device_witness :
  let e := Double.env (Double.healthy (lit "hello")) in
  let request :=
    {| req_file_paths := None; req_device_id := Some (lit "d2");
       req_local_date := Some (lit "2024-01-01"); req_time_blocks := None;
       req_model := lit "groq" |} in
  is_new_interface request = true /\
  post_fetch_and_transcribe e
    (with_file_paths request (Some [lit "other.wav"])) (Double.start 0 [])
  = post_fetch_and_transcribe e request (Double.start 0 []).
Proof.
  cbv zeta. split; [reflexivity |].
  apply (@file_paths_ignored_with_device Double.World
           (Double.env (Double.healthy (lit "hello")))).
  reflexivity.
Defined.

(** A request that names a model that is not supported. *)
Lemma refused_batch_changes_nothing_witness :
  let e := Double.env (Double.healthy (lit "hello")) in
  let request := with_model (single_file_request Double.x_path)
                            (lit "whisper") in
  post_fetch_and_transcribe e request (Double.start 0 [])
    = (Double.start 0 [], HttpFailure 400) /\
  Double.start 0 [] = Double.start 0 [].
Proof.
  cbv zeta. split; [reflexivity |].
  apply (@refused_batch_changes_nothing Double.World
           (Double.env (Double.healthy (lit "hello")))
           (with_model (single_file_request Double.x_path) (lit "whisper"))
           (Double.start 0 []) (Double.start 0 [])).
  reflexivity.
Defined.

(** An empty transcript, no flag, a clock at 15:00 UTC on 1970-01-01. *)
Lemma quota_window_in_utc_witness :
  let e := Double.env (Double.healthy []) in
  let s := Double.start 54000 [] in
  let res := {| transcription := []; no_speech_detected := None |} in
  (0 <= utc_now e (world s))%Z /\
  (snd (quota_check e res [] s) = Ok true <->
   ([] = ([] : str) /\ no_speech_flag res = false
    /\ (15 <= utc_hour (utc_now e (world s)))%Z)).
Proof.
  cbv zeta. split; [vm_compute; discriminate |].
  apply (@quota_window_in_utc Double.World (Double.env (Double.healthy []))
           {| transcription := []; no_speech_detected := None |} []
           (Double.start 54000 [])).
  vm_compute. discriminate.
Defined.

(** An upload named [Memo.2024.WAV]. *)
Lemma upload_format_reads_last_segment_witness :
  existsb (N.eqb 46) (lit "WAV") = false /\
  upload_refusal {| up_filename := Some (lit "Memo.2024" ++ 46%N :: lit "WAV");
                    up_size := None; up_file := tt |}
  = upload_refusal {| up_filename := Some (46%N :: lit "WAV");
                      up_size := None; up_file := tt |} /\
  file_extension (lit "Memo.2024" ++ 46%N :: lit "WAV")
  = 46%N :: lower (lit "WAV") /\
  file_extension (lit "WAV") = 46%N :: lower (lit "WAV").
Proof.
  split; [reflexivity |].
  apply (@upload_format_reads_last_segment unit (lit "Memo.2024") (lit "WAV")
           None tt).
  reflexivity.
Defined.
